(** * A shallow embedding of the backend orchestration of typset_image

    Sources: src/src/backends.rs (Backend, CommandError, run_command),
    src/src/latex.rs (get_dir, gen_svg, gen_png, set_color),
    src/src/typst.rs (gen_image, watch), src/src/gui.rs (Gui::new,
    Gui::equation_hash, Gui::cache_dir, Gui::copy_to_dest, every arm of
    Gui::update, and what Gui::view reads).

    Strings are byte strings ([string] is a list of 8-bit [ascii]); a Rust
    [String] is such a byte string that is valid UTF-8. Searching for ['!'],
    splitting lines and testing [is_ascii_whitespace] only look at ASCII
    bytes, which never occur inside a multi-byte UTF-8 sequence, so the
    byte-level functions below agree with the char-level Rust ones. *)

From Stdlib Require Import ZArith NArith Ascii String List Bool Lia.
From stdpp Require Import base gmap sets strings pretty.

Import ListNotations.
Local Open Scope string_scope.

(* ------------------------------------------------------------------ *)
(** ** Byte-string helpers mirroring the [str] methods used *)

Module Str.

Definition code (c : ascii) : nat := nat_of_ascii c.

(** [str::find(char)] for an ASCII char: the byte index of its first
    occurrence. *)
Fixpoint find (c : ascii) (s : string) : option nat :=
  match s with
  | EmptyString => None
  | String d r =>
      if Ascii.eqb d c then Some 0
      else option_map S (find c r)
  end.

(** [&s[idx..]] *)
Fixpoint drop (n : nat) (s : string) : string :=
  match n, s with
  | 0, _ => s
  | S n', String _ r => drop n' r
  | S _, EmptyString => EmptyString
  end.

(** [str::split('\n')]: the pieces between newlines (always at least one). *)
Fixpoint split_nl (s : string) : list string :=
  match s with
  | EmptyString => [EmptyString]
  | String c r =>
      if Ascii.eqb c "010"%char then EmptyString :: split_nl r
      else match split_nl r with
           | l :: ls => String c l :: ls
           | [] => [String c EmptyString]
           end
  end.

(** Removes one trailing carriage return. *)
Fixpoint strip_cr (s : string) : string :=
  match s with
  | EmptyString => EmptyString
  | String c EmptyString => if Ascii.eqb c "013"%char then EmptyString else s
  | String c r => String c (strip_cr r)
  end.

(** [str::lines()]: [split_inclusive('\n')], each piece stripped of its
    ["\n"] and then of a ["\r"] before it; the piece after the final
    newline is only a line when it is non-empty and keeps any ["\r"]. *)
Definition lines (s : string) : list string :=
  let ps := split_nl s in
  map strip_cr (List.removelast ps) ++
  (match List.last ps EmptyString with
   | EmptyString => []
   | l => [l]
   end).

(** [char::is_ascii_whitespace]: U+0020, U+0009, U+000A, U+000C, U+000D. *)
Definition is_ascii_whitespace (c : ascii) : bool :=
  let n := code c in
  Nat.eqb n 32 || Nat.eqb n 9 || Nat.eqb n 10 || Nat.eqb n 12 || Nat.eqb n 13.

(** [l.chars().any(|c| !c.is_ascii_whitespace())] *)
Fixpoint any_non_ws (s : string) : bool :=
  match s with
  | EmptyString => false
  | String c r => negb (is_ascii_whitespace c) || any_non_ws r
  end.

Fixpoint take_while {A} (p : A -> bool) (l : list A) : list A :=
  match l with
  | [] => []
  | x :: r => if p x then x :: take_while p r else []
  end.

(** [Itertools::join("\n")] *)
Definition join_nl (ls : list string) : string :=
  String.concat (String "010"%char EmptyString) ls.

Fixpoint has_char (c : ascii) (s : string) : bool :=
  match s with
  | EmptyString => false
  | String d r => Ascii.eqb d c || has_char c r
  end.

End Str.

(* ------------------------------------------------------------------ *)
(** ** UTF-8 validity, as checked by [std::str::from_utf8] *)

Module Utf8.

Definition cont (n : nat) : bool := Nat.leb 128 n && Nat.leb n 191.
Definition rng (lo hi n : nat) : bool := Nat.leb lo n && Nat.leb n hi.

(** Well-formed UTF-8 byte sequences (Unicode Table 3-7): no overlong
    forms, no surrogates, nothing above U+10FFFF. *)
Fixpoint valid_codes (l : list nat) : bool :=
  match l with
  | [] => true
  | b :: r =>
      if Nat.leb b 127 then valid_codes r
      else if rng 194 223 b then
        match r with
        | b1 :: r' => cont b1 && valid_codes r'
        | _ => false
        end
      else if rng 224 239 b then
        match r with
        | b1 :: b2 :: r' =>
            (if Nat.eqb b 224 then rng 160 191 b1
             else if Nat.eqb b 237 then rng 128 159 b1
             else cont b1) && cont b2 && valid_codes r'
        | _ => false
        end
      else if rng 240 244 b then
        match r with
        | b1 :: b2 :: b3 :: r' =>
            (if Nat.eqb b 240 then rng 144 191 b1
             else if Nat.eqb b 244 then rng 128 143 b1
             else cont b1) && cont b2 && cont b3 && valid_codes r'
        | _ => false
        end
      else false
  end.

Definition codes (s : string) : list nat := map Str.code (list_ascii_of_string s).

Definition valid (s : string) : bool := valid_codes (codes s).

End Utf8.

(* ------------------------------------------------------------------ *)
(** ** Results: [Result<T, E>] plus a panic (an [expect] or [unwrap]
    that fails) *)

Inductive res (A E : Type) : Type :=
| Ok (a : A)
| Err (e : E)
| Panic (msg : string).
Arguments Ok {A E} a.
Arguments Err {A E} e.
Arguments Panic {A E} msg.

(* ------------------------------------------------------------------ *)
(** ** backends.rs: [CommandError] and [run_command] *)

(** [std::process::ExitStatus]: the exit code, [None] when the process
    was ended by a signal. *)
Record ExitStatus := mkExitStatus { code : option Z }.

Definition success (st : ExitStatus) : bool :=
  match code st with Some 0%Z => true | _ => false end.

(** [std::process::Output] *)
Record Output := mkOutput { status : ExitStatus; stdout : string; stderr : string }.

Inductive CommandError :=
| ErrorSpawning (command : string)
| Error (status : ExitStatus) (command : string) (message : string).

(** [utf8_to_string]: [from_utf8(..).expect(..)]. *)
Definition utf8_to_string {E} (bytes : string) : res string E :=
  if Utf8.valid bytes then Ok bytes
  else Panic "latex, typst, dvisvgm always have utf8 outputs".

(** The diagnostic-extraction part of [run_command] on a nonzero exit,
    once both outputs are decoded:
    [if message.is_empty() { stderr } else if let Some(idx) =
     message.find('!') { message[idx..].lines().take_while(..).join("\n") }
     else { message }]. *)
Definition extract_message (message err_text : string) : string :=
  match message with
  | EmptyString => err_text
  | _ =>
      match Str.find "!"%char message with
      | Some idx =>
          Str.join_nl (Str.take_while Str.any_non_ws (Str.lines (Str.drop idx message)))
      | None => message
      end
  end.

(** [run_command], given what [Command::output()] produced: [None] when
    spawning failed. The [println!] calls on the failure path decode both
    stdout and stderr, so either one not being UTF-8 panics there.
    latex.rs has a private copy of this function whose body differs only
    in the order of the two [println!] calls, which both decode before any
    result is built, and in the text of its UTF-8 panic
    (["latex & dvisvgm always have utf8 outputs"]); this definition
    models both with the text of backends.rs, and no statement below
    about the LaTeX backend depends on the panic text. *)
Definition run_command (command : string) (spawned : option Output)
  : res string CommandError :=
  match spawned with
  | None => Err (ErrorSpawning command)
  | Some o =>
      if success (status o) then utf8_to_string (stdout o)
      else
        match utf8_to_string (E:=CommandError) (stdout o) with
        | Ok message =>
            match utf8_to_string (E:=CommandError) (stderr o) with
            | Ok err_text =>
                Err (Error (status o) command (extract_message message err_text))
            | Err e => Err e
            | Panic m => Panic m
            end
        | Err e => Err e
        | Panic m => Panic m
        end
  end.

(* ------------------------------------------------------------------ *)
(** ** Paths (std::path, '/' as the separator) *)

Module Path.

Definition is_absolute (p : string) : bool :=
  match p with
  | String c _ => Ascii.eqb c "/"%char
  | EmptyString => false
  end.

Fixpoint ends_with_sep (p : string) : bool :=
  match p with
  | EmptyString => false
  | String c EmptyString => Ascii.eqb c "/"%char
  | String _ r => ends_with_sep r
  end.

(** [Path::join] (= [PathBuf::push]): an absolute argument replaces the
    base; otherwise a separator is inserted unless the base is empty or
    already ends with one. *)
Definition join (base p : string) : string :=
  if is_absolute p then p
  else match base with
       | EmptyString => p
       | _ => if ends_with_sep base then base ++ p else base ++ "/" ++ p
       end.

(** Byte index of the last separator. *)
Fixpoint last_sep (p : string) : option nat :=
  match p with
  | EmptyString => None
  | String c r =>
      match last_sep r with
      | Some i => Some (S i)
      | None => if Ascii.eqb c "/"%char then Some 0 else None
      end
  end.

(** The directory that has to exist for [p] to be created. *)
Definition parent (p : string) : string :=
  match last_sep p with
  | Some 0 => "/"
  | Some i => substring 0 i p
  | None => ""
  end.

End Path.

(* ------------------------------------------------------------------ *)
(** ** The world: file system, working directory, spawned processes *)

(** Directories and regular files, by absolute path. Paths are compared
    as strings: ["."] and [".."] components are not normalised. *)
Record FS := mkFS { dirs : gset string; files : gmap string string }.

(** The process state the backends touch: the file system, the
    process-wide current directory and the list of external processes
    started, in order ([(program, arguments)]). *)
Record World := mkWorld { fs : FS; cwd : string; trace : list (string * list string) }.

Inductive GuiError :=
| NoEquation (backend : string)
| NoLatex
| TempDir
| GetSetCurrentDir
| WriteFile (path : string)
| ReadFile (path : string)
| CopyFile (src dst : string)
| Command (e : CommandError).

(** The state monad of an async backend operation. *)
Definition M (A : Type) : Type := World -> res A GuiError * World.

Definition M_ret : MRet M := fun A a w => (Ok a, w).

Definition M_bind : MBind M :=
  fun A B k m w =>
    match m w with
    | (Ok a, w') => k a w'
    | (Err e, w') => (Err e, w')
    | (Panic s, w') => (Panic s, w')
    end.

#[export] Existing Instances M_ret M_bind.

(** An [std::io] operation: [None] is an [io::Error]. *)
Definition io (A : Type) : Type := World -> option A * World.

(** [op.map_err(|_| e)?] *)
Definition or_err {A} (op : io A) (e : GuiError) : M A :=
  fun w => match op w with
           | (Some a, w') => (Ok a, w')
           | (None, w') => (Err e, w')
           end.

Definition resolve (w : World) (p : string) : string := Path.join (cwd w) p.

Definition path_exists (f : FS) (q : string) : bool :=
  bool_decide (q ∈ dirs f) || bool_decide (is_Some (files f !! q)).

(** [env::current_dir()]: fails when the directory has gone. *)
Definition current_dir : io string := fun w =>
  if bool_decide (cwd w ∈ dirs (fs w)) then (Some (cwd w), w) else (None, w).

(** [env::set_current_dir(p)] *)
Definition set_current_dir (p : string) : io unit := fun w =>
  let q := resolve w p in
  if bool_decide (q ∈ dirs (fs w))
  then (Some tt, mkWorld (fs w) q (trace w)) else (None, w).

(** [fs::create_dir(p)]: fails when something is already at [p] or the
    parent is missing. *)
Definition create_dir (p : string) : io unit := fun w =>
  let q := resolve w p in
  if path_exists (fs w) q || negb (bool_decide (Path.parent q ∈ dirs (fs w)))
  then (None, w)
  else (Some tt, mkWorld (mkFS ({[q]} ∪ dirs (fs w)) (files (fs w))) (cwd w) (trace w)).

(** [fs::write(p, contents)]: creates or truncates a regular file. *)
Definition write (p contents : string) : io unit := fun w =>
  let q := resolve w p in
  if bool_decide (Path.parent q ∈ dirs (fs w)) && negb (bool_decide (q ∈ dirs (fs w)))
  then (Some tt, mkWorld (mkFS (dirs (fs w)) (<[q := contents]> (files (fs w)))) (cwd w) (trace w))
  else (None, w).

(** [fs::read_to_string(p)]: fails on a missing file and on contents
    that are not UTF-8. *)
Definition read_to_string (p : string) : io string := fun w =>
  match files (fs w) !! resolve w p with
  | Some s => if Utf8.valid s then (Some s, w) else (None, w)
  | None => (None, w)
  end.

(** [std::fs::copy(src, dst)] *)
Definition copy (src dst : string) : io unit := fun w =>
  match files (fs w) !! resolve w src with
  | Some s => write dst s w
  | None => (None, w)
  end.

(* ------------------------------------------------------------------ *)
(** ** [DefaultHasher]: SipHash-1-3 with the fixed keys (0, 0) *)

Module Sip.

Open Scope Z_scope.

Definition w64 (x : Z) : Z := x mod 2 ^ 64.
Definition add (a b : Z) : Z := w64 (a + b).
Definition rotl (x : Z) (b : Z) : Z :=
  w64 (Z.lor (Z.shiftl x b) (Z.shiftr x (64 - b))).

Record state := mkState { v0 : Z; v1 : Z; v2 : Z; v3 : Z }.

(** [compress!] *)
Definition sipround (s : state) : state :=
  let '(mkState v0 v1 v2 v3) := s in
  let v0 := add v0 v1 in let v1 := rotl v1 13 in let v1 := Z.lxor v1 v0 in
  let v0 := rotl v0 32 in
  let v2 := add v2 v3 in let v3 := rotl v3 16 in let v3 := Z.lxor v3 v2 in
  let v0 := add v0 v3 in let v3 := rotl v3 21 in let v3 := Z.lxor v3 v0 in
  let v2 := add v2 v1 in let v1 := rotl v1 17 in let v1 := Z.lxor v1 v2 in
  let v2 := rotl v2 32 in
  mkState v0 v1 v2 v3.

(** [Hasher::new_with_keys(k0, k1)] *)
Definition init (k0 k1 : Z) : state :=
  mkState (Z.lxor k0 0x736f6d6570736575) (Z.lxor k1 0x646f72616e646f6d)
          (Z.lxor k0 0x6c7967656e657261) (Z.lxor k1 0x7465646279746573).

(** One message word, with Sip13Rounds' single c-round. *)
Definition absorb (s : state) (m : Z) : state :=
  let '(mkState v0 v1 v2 v3) := s in
  let '(mkState v0 v1 v2 v3) := sipround (mkState v0 v1 v2 (Z.lxor v3 m)) in
  mkState (Z.lxor v0 m) v1 v2 v3.

(** Little-endian word of at most 8 bytes. *)
Fixpoint le_word (bs : list Z) : Z :=
  match bs with
  | [] => 0
  | b :: r => b + 256 * le_word r
  end.

(** The full 8-byte words of the stream, then the leftover tail. *)
Fixpoint blocks (fuel : nat) (s : state) (bs : list Z) : state * list Z :=
  match fuel with
  | O => (s, bs)
  | S fuel' =>
      if (8 <=? Z.of_nat (length bs)) then
        blocks fuel' (absorb s (le_word (firstn 8 bs))) (skipn 8 bs)
      else (s, bs)
  end.

(** [Hasher::finish]: the length byte and tail, one c-round, three
    d-rounds. *)
Definition finish (s : state) (len : nat) (tail : list Z) : Z :=
  let b := Z.lor (Z.shiftl (Z.of_nat len mod 256) 56) (le_word tail) in
  let s := absorb s b in
  let '(mkState v0 v1 v2 v3) := s in
  let s := sipround (sipround (sipround (mkState v0 v1 (Z.lxor v2 0xff) v3))) in
  let '(mkState v0 v1 v2 v3) := s in
  Z.lxor (Z.lxor v0 v1) (Z.lxor v2 v3).

Definition siphash13 (k0 k1 : Z) (bs : list Z) : Z :=
  let '(s, tail) := blocks (length bs) (init k0 k1) bs in
  finish s (length bs) tail.

End Sip.

(** [impl Hash for str]: [state.write_str(s)], which for SipHash writes
    the bytes followed by [0xFF]. *)
Definition str_hash_bytes (s : string) : list Z :=
  map (fun c => Z.of_nat (Str.code c)) (list_ascii_of_string s) ++ [255%Z].

(** [DefaultHasher::default()] hashing a [String] and [finish()]. *)
Definition default_hash_str (s : string) : N :=
  Z.to_N (Sip.siphash13 0 0 (str_hash_bytes s)).

(* ------------------------------------------------------------------ *)
(** ** backends.rs: [Backend]; typst.rs: [Image]; gui.rs: [ImageFormat],
    [State], [Message] *)

Module Backend.
Inductive t := LaTeX | Typst.

Definition letter (b : t) : string :=
  match b with LaTeX => "L" | Typst => "T" end.
Definition name (b : t) : string :=
  match b with LaTeX => "latex" | Typst => "typst" end.
Definition stylized (b : t) : string :=
  match b with LaTeX => "LaTeX" | Typst => "Typst" end.
End Backend.

Module Image.
Inductive t := Svg | Png (dpi : nat).
End Image.

Module ImageFormat.
Inductive t := Svg | Png.

Definition eqb (a b : t) : bool :=
  match a, b with Svg, Svg | Png, Png => true | _, _ => false end.

(** [impl Display for ImageFormat] *)
Definition to_string (f : t) : string :=
  match f with Svg => "svg" | Png => "png" end.

Definition default_file_name (f : t) : string :=
  match f with Svg => "eq.svg" | Png => "eq.png" end.
End ImageFormat.

Module State.
Inductive t :=
| Compiling
| Svg (dir : string)
| Png (dir : string)
| Errored (e : GuiError).
End State.

(** The messages of the compile flow ([Message::Compile] and the two
    completions it chains into); the other messages only edit fields or
    move focus. *)
Module Message.
Inductive t :=
| Compile
| SvgGenerated (r : res unit GuiError)
| PngGenerated (r : res unit GuiError).
End Message.

(** [iced::Command<Message>] as the compile flow uses it: nothing, or
    [Command::perform(future, f)]. *)
Inductive Cmd :=
| CmdNone
| Perform (task : M unit) (f : res unit GuiError -> Message.t).

(** gui.rs: the fields of [struct Gui] the compile flow reads or writes
    ([folder_icon] is left out). [typst_dir] is the path of the session's
    [TempDir]. *)
Record Gui := mkGui {
  equation : string;
  name : option string;
  color : option string;
  compiled_color : string;
  format : ImageFormat.t;
  dpi : nat;
  out_dir : string;
  state : State.t;
  backend : Backend.t;
  typst_dir : string
}.

Definition set_state (g : Gui) (st : State.t) : Gui :=
  mkGui (equation g) (name g) (color g) (compiled_color g) (format g) (dpi g)
        (out_dir g) st (backend g) (typst_dir g).

Definition set_compiled_color (g : Gui) (c : string) : Gui :=
  mkGui (equation g) (name g) (color g) c (format g) (dpi g)
        (out_dir g) (state g) (backend g) (typst_dir g).

Definition DEFAULT_COLOR : string := "white".

(** [Gui::equation_hash] *)
Definition equation_hash (g : Gui) : N := default_hash_str (equation g).

(** [Gui::color] *)
Definition gui_color (g : Gui) : string :=
  match color g with Some c => c | None => DEFAULT_COLOR end.

Section Backends.

(** What an external program does when started with some arguments in
    some working directory: [None] when it cannot be spawned, else its
    output; it may change the file system. *)
Variable tool : string -> list string -> string -> FS -> option Output * FS.

(** The cache root [CACHE_DIR] (the platform local-data directory joined
    with ["latex_image"], created on first use). *)
Variable CACHE_DIR : string.

(** [run_command(command, args).await] inside a backend, whose
    [CommandError] the [?] turns into [GuiError::Command]. Every start
    attempt is recorded in the trace. *)
Definition run_cmd (command : string) (args : list string) : M string := fun w =>
  let '(o, f') := tool command args (cwd w) (fs w) in
  let w' := mkWorld (match o with Some _ => f' | None => fs w end) (cwd w)
                    (trace w ++ [(command, args)]) in
  match run_command command o with
  | Ok s => (Ok s, w')
  | Err e => (Err (Command e), w')
  | Panic m => (Panic m, w')
  end.


(** [str::replace(pat, to)] for a non-empty [pat]: non-overlapping
    occurrences, left to right. [fuel] is the length of the input. *)
Fixpoint replace_go (fuel : nat) (pat to s : string) : string :=
  match fuel with
  | O => s
  | S fuel' =>
      if String.prefix pat s then
        to ++ replace_go fuel' pat to (substring (String.length pat)
                                         (String.length s - String.length pat) s)
      else match s with
           | EmptyString => EmptyString
           | String c r => String c (replace_go fuel' pat to r)
           end
  end.

Definition replace (pat to s : string) : string :=
  replace_go (S (String.length s)) pat to s.

(** latex.rs: [LATEX_START] and [LATEX_END]. *)
Definition LATEX_START : string :=
"\documentclass[12pt]{article}
\usepackage{amsmath}
\usepackage{amssymb}
\usepackage{amsfonts}
\usepackage[usenames,dvipsnames]{color}
\usepackage[utf8]{inputenc}
\thispagestyle{empty}
\begin{document}
\color{white}
\begin{align*}
    ".

Definition LATEX_END : string :=
"
\end{align*}
\end{document}".

(** typst.rs: [TYPST_START]. *)
Definition TYPST_START : string :=
"#set page(width: auto, height: auto, margin: 0pt)
#set text(fill: ".

(** typst.rs, [gen_image]: the vendored Typst compiler. *)
Definition TYPST : string :=
  "C:\Users\andre\CLionProjects\typst\target\release\typst.exe".

(** latex.rs: [get_dir(hash)] = [CACHE_DIR.join(format!("latex_{hash}"))]. *)
Definition get_dir (hash : N) : string :=
  Path.join CACHE_DIR ("latex_" ++ pretty hash).

(** latex.rs, [set_color] after [let dir = get_dir(hash)]: the GUI calls
    it with that directory. *)
Definition set_color_in (dir color : string) : M unit :=
  svg ← or_err (read_to_string (Path.join dir "eq.svg")) (ReadFile "eq.svg");
  let svg := replace "#fff" color svg in
  let path_colored := Path.join dir (color ++ "_eq.svg") in
  or_err (write path_colored svg) (WriteFile path_colored).

(** latex.rs: [set_color(hash, color)] *)
Definition set_color (hash : N) (color : string) : M unit :=
  set_color_in (get_dir hash) color.

(** latex.rs: [gen_svg(latex, hash, color)]. (gui.rs passes
    [get_dir(hash)] itself; the directory is the same.) *)
Definition latex_gen_svg (latex : string) (hash : N) (color : string) : M string :=
  initial_dir ← or_err current_dir GetSetCurrentDir;
  let dir := get_dir hash in
  or_err (create_dir dir) TempDir;;
  or_err (set_current_dir dir) GetSetCurrentDir;;
  or_err (write "eq.tex" (LATEX_START ++ latex ++ LATEX_END)) (WriteFile "eq.tex");;
  run_cmd "latex" ["-no-shell-escape"; "-interaction=nonstopmode";
                   "-halt-on-error"; "eq.tex"];;
  run_cmd "dvisvgm" ["--no-fonts"; "--scale=1"; "--exact"; "-o eq.svg"; "eq.dvi"];;
  set_color hash color;;
  or_err (set_current_dir initial_dir) GetSetCurrentDir;;
  mret dir.

(** latex.rs: [gen_png(dir, color, density)] *)
Definition latex_gen_png (dir color : string) (density : nat) : M string :=
  initial_dir ← or_err current_dir GetSetCurrentDir;
  or_err (set_current_dir dir) GetSetCurrentDir;;
  run_cmd "magick.exe" ["convert"; "-background"; "none"; "-density"; pretty density;
                        color ++ "_eq.svg"; color ++ "_eq.png"];;
  or_err (set_current_dir initial_dir) GetSetCurrentDir;;
  mret dir.

(** typst.rs: the arguments of the one compiler call of [gen_image]. *)
Definition typst_args (color : string) (image : Image.t) : list string :=
  match image with
  | Image.Svg => ["compile"; "eq.typ"; color ++ "_eq.svg"; "--diagnostic-format"; "short"]
  | Image.Png dpi => ["compile"; "eq.typ"; color ++ "_eq.png"; "--diagnostic-format"; "short";
                "--ppi"; pretty dpi; "--background"; "#00000000"]
  end.

(** typst.rs: the source written to [eq.typ],
    [format!("{TYPST_START}{color})\n$ {eq} $")]. *)
Definition typst_source (eq color : string) : string :=
  TYPST_START ++ color ++ ")
$ " ++ eq ++ " $".

(** typst.rs: [gen_image(eq, dir, color, image)] *)
Definition typst_gen_image (eq dir color : string) (image : Image.t) : M unit :=
  initial_dir ← or_err current_dir GetSetCurrentDir;
  or_err (set_current_dir dir) GetSetCurrentDir;;
  or_err (write "eq.typ" (typst_source eq color)) (WriteFile "eq.typ");;
  run_cmd TYPST (typst_args color image);;
  or_err (set_current_dir initial_dir) GetSetCurrentDir;;
  mret ().

Definition typst_gen_svg (eq dir color : string) : M unit :=
  typst_gen_image eq dir color Image.Svg.

Definition typst_gen_png (eq dir color : string) (density : nat) : M unit :=
  typst_gen_image eq dir color (Image.Png density).

(** backends.rs: [Backend::gen_png] *)
Definition backend_gen_png (b : Backend.t) (eq dir color : string) (dpi : nat) : M unit :=
  match b with
  | Backend.LaTeX => latex_gen_png dir color dpi;; mret ()
  | Backend.Typst => typst_gen_png eq dir color dpi
  end.

(** [Gui::cache_dir] *)
Definition cache_dir (g : Gui) : string :=
  match backend g with
  | Backend.LaTeX => get_dir (equation_hash g)
  | Backend.Typst => typst_dir g
  end.

(** [Gui::copy_to_dest] *)
Definition copy_to_dest (g : Gui) : io unit :=
  let dir := cache_dir g in
  copy (Path.join dir (compiled_color g ++ "_eq." ++ ImageFormat.to_string (format g)))
       (Path.join (out_dir g)
          (match name g with
           | Some n => n
           | None => ImageFormat.default_file_name (format g)
           end)).

(** One step of [Gui::update]: the new GUI state and command, or [None]
    when an [unwrap] panics; with the world it leaves. *)
Definition step : Type := World -> option (Gui * Cmd) * World.

(** [self.copy_to_dest().unwrap(); Command::none()] with the new state. *)
Definition show_result (g : Gui) : step := fun w =>
  match copy_to_dest g w with
  | (Some _, w') => (Some (g, CmdNone), w')
  | (None, w') => (None, w')
  end.

(** [Message::SvgGenerated(res)] *)
Definition update_svg_generated (r : res unit GuiError) (g : Gui) : step :=
  match r with
  | Ok _ =>
      let dir := cache_dir g in
      match format g with
      | ImageFormat.Svg => show_result (set_state g (State.Svg dir))
      | ImageFormat.Png => fun w =>
          (Some (g, Perform (backend_gen_png (backend g) (equation g) dir (gui_color g) (dpi g))
                           Message.PngGenerated), w)
      end
  | Err e => fun w => (Some (set_state g (State.Errored e), CmdNone), w)
  | Panic _ => fun w => (None, w)
  end.

(** [Message::PngGenerated(res)] *)
Definition update_png_generated (r : res unit GuiError) (g : Gui) : step :=
  match r with
  | Ok _ => show_result (set_state g (State.Png (cache_dir g)))
  | Err e => fun w => (Some (set_state g (State.Errored e), CmdNone), w)
  | Panic _ => fun w => (None, w)
  end.

(** [Message::Compile] *)
Definition update_compile (g : Gui) : step := fun w =>
  if String.eqb (equation g) "" then
    (Some (set_state g (State.Errored (NoEquation (Backend.stylized (backend g)))), CmdNone), w)
  else
    let color := gui_color g in
    let g := set_compiled_color (set_state g State.Compiling) color in
    match backend g with
    | Backend.LaTeX =>
        let hash := equation_hash g in
        let dir := get_dir hash in
        if path_exists (fs w) (resolve w dir) then
          let img := Path.join dir (color ++ "_eq." ++ ImageFormat.to_string (format g)) in
          if path_exists (fs w) (resolve w img) && ImageFormat.eqb (format g) ImageFormat.Svg
          then update_svg_generated (Ok ()) g w
          else (Some (g, Perform (set_color_in dir color) Message.SvgGenerated), w)
        else
          (Some (g, Perform (latex_gen_svg (equation g) hash color;; mret ())
                           Message.SvgGenerated), w)
    | Backend.Typst =>
        (Some (g, Perform (typst_gen_svg (equation g) (typst_dir g) color)
                         Message.SvgGenerated), w)
    end.

Definition update (msg : Message.t) (g : Gui) : step :=
  match msg with
  | Message.Compile => update_compile g
  | Message.SvgGenerated r => update_svg_generated r g
  | Message.PngGenerated r => update_png_generated r g
  end.

(** How a message ends: with a GUI state and a world, or in a panic. *)
Inductive Outcome :=
| Finished (g : Gui) (w : World)
| Panicked (w : World)
| OutOfFuel.

(** The iced runtime on one message: run [update], perform the returned
    command's future to completion and feed its result back, until
    [Command::none()]. The runtime serialises the flow (the spec's
    single active render); [fuel] bounds the chain. *)
Fixpoint run (fuel : nat) (msg : Message.t) (g : Gui) (w : World) : Outcome :=
  match update msg g w with
  | (None, w') => Panicked w'
  | (Some (g', CmdNone), w') => Finished g' w'
  | (Some (g', Perform task f), w') =>
      match fuel with
      | O => OutOfFuel
      | S fuel' =>
          match task w' with
          | (Ok _, w'') => run fuel' (f (Ok ())) g' w''
          | (Err e, w'') => run fuel' (f (Err e)) g' w''
          | (Panic _, w'') => Panicked w''
          end
      end
  end.

(** A compile request: [Message::Compile] and what it chains into. *)
Definition compile (g : Gui) (w : World) : Outcome := run 3 Message.Compile g w.

Definition outcome_world (o : Outcome) : option World :=
  match o with
  | Finished _ w | Panicked w => Some w
  | OutOfFuel => None
  end.

End Backends.

(* ------------------------------------------------------------------ *)
(** ** The rest of [Gui::update], [Gui::new], [Gui::view] and [typst::watch] *)

(** icons.rs: [enum Icon] *)
Module Icon.
Inductive t := Folder | Folder2 | Folder2Open.
End Icon.

(** gui.rs: every variant of [enum Message]. *)
Module UiMessage.
Inductive t :=
| FontLoaded
| EditEquation (s : string)
| Name (s : string)
| Color (s : string)
| Compile
| SvgGenerated (r : res unit GuiError)
| PngGenerated (r : res unit GuiError)
| FocusNext
| FocusPrevious
| Format (f : ImageFormat.t)
| SetDpi (s : string)
| OutDir (s : string)
| OpenExplorer
| PickedDir (d : option string)
| SwitchBackend.
End UiMessage.

(** The whole [struct Gui]: the fields of the compile flow and
    [folder_icon]. *)
Record App := mkApp { gui : Gui; folder_icon : Icon.t }.

(** The commands [update] returns: those of the compile flow, the two
    focus moves and the folder dialog (whose answer is
    [Message::PickedDir]). *)
Inductive UiCmd :=
| UiNone
| UiPerform (task : M unit) (f : res unit GuiError -> Message.t)
| FocusNextCmd
| FocusPreviousCmd
| PickFolder.

Definition set_equation (g : Gui) (e : string) : Gui :=
  mkGui e (name g) (color g) (compiled_color g) (format g) (dpi g)
        (out_dir g) (state g) (backend g) (typst_dir g).

Definition set_name (g : Gui) (n : option string) : Gui :=
  mkGui (equation g) n (color g) (compiled_color g) (format g) (dpi g)
        (out_dir g) (state g) (backend g) (typst_dir g).

Definition set_color_field (g : Gui) (c : option string) : Gui :=
  mkGui (equation g) (name g) c (compiled_color g) (format g) (dpi g)
        (out_dir g) (state g) (backend g) (typst_dir g).

Definition set_format (g : Gui) (f : ImageFormat.t) : Gui :=
  mkGui (equation g) (name g) (color g) (compiled_color g) f (dpi g)
        (out_dir g) (state g) (backend g) (typst_dir g).

Definition set_dpi (g : Gui) (d : nat) : Gui :=
  mkGui (equation g) (name g) (color g) (compiled_color g) (format g) d
        (out_dir g) (state g) (backend g) (typst_dir g).

Definition set_out_dir (g : Gui) (d : string) : Gui :=
  mkGui (equation g) (name g) (color g) (compiled_color g) (format g) (dpi g)
        d (state g) (backend g) (typst_dir g).

Definition set_backend (g : Gui) (b : Backend.t) : Gui :=
  mkGui (equation g) (name g) (color g) (compiled_color g) (format g) (dpi g)
        (out_dir g) (state g) b (typst_dir g).

(** [Some(s).filter(not_empty)] *)
Definition filter_not_empty (s : string) : option string :=
  if String.eqb s "" then None else Some s.

(** [usize::MAX] on the 64-bit Windows target. *)
Definition USIZE_MAX : N := 2 ^ 64 - 1.

(** [char::to_digit(10)] *)
Definition to_digit (c : ascii) : option N :=
  let n := Str.code c in
  if Nat.leb 48 n && Nat.leb n 57 then Some (N.of_nat (n - 48)) else None.

(** The digit loop of [usize::from_str_radix(src, 10)]: each digit is
    checked, then [result.checked_mul(10)] and [checked_add(digit)]. *)
Fixpoint parse_digits (acc : N) (s : string) : option N :=
  match s with
  | EmptyString => Some acc
  | String c r =>
      match to_digit c with
      | None => None
      | Some d =>
          if (acc * 10 <=? USIZE_MAX)%N then
            if (acc * 10 + d <=? USIZE_MAX)%N then parse_digits (acc * 10 + d) r
            else None
          else None
      end
  end.

(** [str::parse::<usize>()]: empty input and a lone sign are errors, one
    leading ['+'] is skipped (['-'] is an invalid digit for an unsigned
    type). *)
Definition parse_usize (s : string) : option N :=
  match s with
  | EmptyString => None
  | String c r =>
      if Ascii.eqb c "+"%char then
        match r with EmptyString => None | _ => parse_digits 0 r end
      else if Ascii.eqb c "-"%char then
        match r with EmptyString => None | _ => parse_digits 0 s end
      else parse_digits 0 s
  end.


Section Ui.

Variable tool : string -> list string -> string -> FS -> option Output * FS.
Variable CACHE_DIR : string.

(** A compile-flow step seen from the whole [Gui] ([folder_icon] kept). *)
Definition lift (icon : Icon.t) (s : step) : World -> option (App * UiCmd) * World := fun w =>
  match s w with
  | (Some (g, CmdNone), w') => (Some (mkApp g icon, UiNone), w')
  | (Some (g, Perform t f), w') => (Some (mkApp g icon, UiPerform t f), w')
  | (None, w') => (None, w')
  end.

(** gui.rs: [Gui::update], every arm. The arms that end in
    [self.update(Message::Compile)] continue with [update_compile]. *)
Definition update_ui (msg : UiMessage.t) (a : App) : World -> option (App * UiCmd) * World :=
  let g := gui a in
  let icon := folder_icon a in
  match msg with
  | UiMessage.EditEquation e =>
      let g := set_equation g e in
      match backend g with
      | Backend.Typst => lift icon (update_compile tool CACHE_DIR g)
      | Backend.LaTeX => fun w => (Some (mkApp g icon, UiNone), w)
      end
  | UiMessage.Name n => fun w => (Some (mkApp (set_name g (filter_not_empty n)) icon, UiNone), w)
  | UiMessage.Color c => fun w => (Some (mkApp (set_color_field g (filter_not_empty c)) icon, UiNone), w)
  | UiMessage.Compile => lift icon (update_compile tool CACHE_DIR g)
  | UiMessage.SvgGenerated r => lift icon (update_svg_generated tool CACHE_DIR r g)
  | UiMessage.PngGenerated r => lift icon (update_png_generated CACHE_DIR r g)
  | UiMessage.FocusNext => fun w => (Some (a, FocusNextCmd), w)
  | UiMessage.FocusPrevious => fun w => (Some (a, FocusPreviousCmd), w)
  | UiMessage.Format f => lift icon (update_compile tool CACHE_DIR (set_format g f))
  | UiMessage.SetDpi s =>
      let g := if String.eqb s "" then set_dpi g 0
               else match parse_usize s with
                    | Some d => set_dpi g (N.to_nat d)
                    | None => g
                    end in
      lift icon (update_compile tool CACHE_DIR g)
  | UiMessage.OutDir d => fun w => (Some (mkApp (set_out_dir g d) icon, UiNone), w)
  | UiMessage.OpenExplorer => fun w => (Some (mkApp g Icon.Folder2Open, PickFolder), w)
  | UiMessage.PickedDir d =>
      let g := match d with Some d => set_out_dir g d | None => g end in
      fun w => (Some (mkApp g Icon.Folder2, UiNone), w)
  | UiMessage.FontLoaded => fun w => (Some (a, UiNone), w)
  | UiMessage.SwitchBackend =>
      let b := match backend g with
               | Backend.LaTeX => Backend.Typst
               | Backend.Typst => Backend.LaTeX
               end in
      lift icon (update_compile tool CACHE_DIR (set_backend g b))
  end.


End Ui.

(** gui.rs: [Gui::new(())]. The fields are evaluated in the order
    written: [env::current_dir().unwrap()] for [out_dir] first, which
    panics when the working directory is gone, then
    [TempDir::new("typst_").unwrap()] for [typst_dir], which panics when
    the temporary directory cannot be created. [temp_dir_new] is that
    call of the tempdir crate (it picks a random name); the state is
    [State::default()], the [NoEquation] error of the default backend
    (Typst). *)
Definition gui_new (temp_dir_new : io string) : World -> option App * World := fun w =>
  match current_dir w with
  | (Some d, w1) =>
      match temp_dir_new w1 with
      | (Some typst_dir, w2) =>
          (Some (mkApp (mkGui "" None None DEFAULT_COLOR ImageFormat.Svg 600 d
                              (State.Errored (NoEquation (Backend.stylized Backend.Typst)))
                              Backend.Typst typst_dir)
                       Icon.Folder), w2)
      | (None, w2) => (None, w2)
      end
  | (None, w1) => (None, w1)
  end.

(** gui.rs, [view]: the image file the result pane reads with
    [fs::read(dir.join(file_name)).unwrap()], if the state shows one. *)
Definition view_file (g : Gui) : option string :=
  match state g with
  | State.Svg dir => Some (Path.join dir (compiled_color g ++ "_eq.svg"))
  | State.Png dir => Some (Path.join dir (compiled_color g ++ "_eq.png"))
  | _ => None
  end.

(** The bytes [view] reads: [Some None] when it reads nothing, [None]
    when the [unwrap] panics. *)
Definition view_read (g : Gui) (w : World) : option (option string) :=
  match view_file g with
  | Some p => match files (fs w) !! resolve w p with
              | Some d => Some (Some d)
              | None => None
              end
  | None => Some None
  end.

(** gui.rs, [view]: the dpi field shows [self.dpi.to_string()]. *)
Definition dpi_text (g : Gui) : string := pretty (dpi g).

(* ------------------------------------------------------------------ *)
(** ** The diagnostic-extraction rule as the spec words it *)

(** Refinement target for [extract_message], following the spec's
    words: "prefer stdout if non-empty, else stderr; if the chosen text
    contains a [!] ... truncate to start at that character and keep only
    the contiguous run of non-blank lines that follows; otherwise return
    the full text". *)
Definition spec_message (out err : string) : string :=
  let chosen := if String.eqb out "" then err else out in
  match Str.find "!"%char chosen with
  | Some idx => Str.join_nl (Str.take_while Str.any_non_ws (Str.lines (Str.drop idx chosen)))
  | None => chosen
  end.

(* ================================================================== *)
(** * Proofs *)

Definition NL : string := String "010"%char EmptyString.

(** A byte that is never valid UTF-8. *)
Definition BAD : string := String (ascii_of_nat 255) EmptyString.

Example extract_spec_blob :
  extract_message ("... preamble ..." ++ NL ++ "! Undefined control sequence." ++ NL
                   ++ "l.5 \foo" ++ NL ++ NL) ""
  = "! Undefined control sequence." ++ NL ++ "l.5 \foo".
Proof. reflexivity. Qed.

Example extract_no_bang :
  extract_message ("line one" ++ NL ++ NL ++ "line two") "ignored"
  = "line one" ++ NL ++ NL ++ "line two".
Proof. reflexivity. Qed.

Lemma find_first (c : ascii) (pre post : string) :
  Str.has_char c pre = false ->
  Str.find c (pre ++ String c post) = Some (String.length pre).
Proof.
  induction pre as [|d pre IH]; simpl.
  - rewrite Ascii.eqb_refl. reflexivity.
  - intros H. apply orb_false_iff in H as [Hd Hpre].
    rewrite Hd, IH by exact Hpre. reflexivity.
Qed.

Lemma find_none (c : ascii) (s : string) :
  Str.has_char c s = false -> Str.find c s = None.
Proof.
  induction s as [|d s IH]; simpl; [reflexivity|].
  intros H. apply orb_false_iff in H as [Hd Hs].
  rewrite Hd, IH by exact Hs. reflexivity.
Qed.

Lemma drop_app (pre post : string) :
  Str.drop (String.length pre) (pre ++ post) = post.
Proof.
  induction pre as [|d pre IH]; simpl; [destruct post; reflexivity|exact IH].
Qed.

Lemma valid_bad : Utf8.valid BAD = false.
Proof. reflexivity. Qed.

(** C1 (amended). On a nonzero exit, with both outputs valid UTF-8, the
    message is the whole stderr when stdout is empty; otherwise, when
    stdout has a ['!'], the lines from its first ['!'] up to the first
    line made only of ASCII whitespace, joined by newlines; otherwise the
    whole stdout. If either output is not UTF-8 the call panics. *)
Theorem run_command_failure_message (cmd : string) (st : ExitStatus) (out err : string) :
  success st = false ->
  ((Utf8.valid out && Utf8.valid err = false) ->
     exists m, run_command cmd (Some (mkOutput st out err)) = Panic m) /\
  (Utf8.valid out = true -> Utf8.valid err = true ->
   (out = "" -> run_command cmd (Some (mkOutput st out err)) = Err (Error st cmd err)) /\
   (forall pre post, out = pre ++ String "!" post -> Str.has_char "!" pre = false ->
      run_command cmd (Some (mkOutput st out err))
      = Err (Error st cmd (Str.join_nl (Str.take_while Str.any_non_ws
                                          (Str.lines (String "!" post)))))) /\
   (out <> "" -> Str.has_char "!" out = false ->
      run_command cmd (Some (mkOutput st out err)) = Err (Error st cmd out))).
Proof.
  intros Hst. unfold run_command, utf8_to_string; simpl. rewrite Hst.
  split.
  - intros Hv. destruct (Utf8.valid out) eqn:Ho; simpl in Hv.
    + rewrite Hv. eauto.
    + eauto.
  - intros Ho He. rewrite Ho, He. split; [|split].
    + intros ->. reflexivity.
    + intros pre post -> Hpre. f_equal. f_equal. unfold extract_message.
      destruct (pre ++ String "!" post) eqn:E; [destruct pre; discriminate|].
      rewrite <- E, find_first by exact Hpre. rewrite drop_app. reflexivity.
    + intros Hne Hno. f_equal. f_equal. unfold extract_message.
      destruct out as [|c r]; [congruence|]. rewrite find_none by exact Hno. reflexivity.
Qed.

Lemma run_command_failure_message_witness :
  success (mkExitStatus (Some 1%Z)) = false /\
  run_command "latex" (Some (mkOutput (mkExitStatus (Some 1%Z))
                          ("log" ++ NL ++ "! Missing $." ++ NL ++ NL ++ "tail") ""))
  = Err (Error (mkExitStatus (Some 1%Z)) "latex" "! Missing $.").
Proof.
  split; [reflexivity|].
  destruct (run_command_failure_message "latex" (mkExitStatus (Some 1%Z))
              ("log" ++ NL ++ "! Missing $." ++ NL ++ NL ++ "tail") "" eq_refl)
    as [_ H].
  destruct (H eq_refl eq_refl) as (_ & H2 & _).
  rewrite (H2 ("log" ++ NL) (" Missing $." ++ NL ++ NL ++ "tail")) by reflexivity.
  reflexivity.
Defined.

(** C1 fails as stated: with an empty stdout, a stderr holding a ['!']
    is returned whole, while the stated rule would cut it at the ['!']. *)
Lemma run_command_stderr_not_cut :
  let err := "warning" ++ NL ++ "! fatal" ++ NL ++ NL ++ "rest" in
  run_command "typst" (Some (mkOutput (mkExitStatus (Some 1%Z)) "" err))
  = Err (Error (mkExitStatus (Some 1%Z)) "typst" err) /\
  spec_message "" err = "! fatal" /\ err <> "! fatal".
Proof. split; [reflexivity|split; [reflexivity|discriminate]]. Qed.


(** [run_command] on a process that ran, by cases on its exit status and
    on the validity of its outputs. *)
Lemma run_command_ran (cmd : string) (o : Output) :
  run_command cmd (Some o) =
  if success (status o) then
    (if Utf8.valid (stdout o) then Ok (stdout o)
     else Panic "latex, typst, dvisvgm always have utf8 outputs")
  else if Utf8.valid (stdout o) && Utf8.valid (stderr o) then
    Err (Error (status o) cmd (extract_message (stdout o) (stderr o)))
  else Panic "latex, typst, dvisvgm always have utf8 outputs".
Proof.
  unfold run_command, utf8_to_string.
  destruct (success (status o)); [reflexivity|].
  destruct (Utf8.valid (stdout o)), (Utf8.valid (stderr o)); reflexivity.
Qed.

Ltac run_cases o :=
  rewrite run_command_ran;
  destruct (success (status o)) eqn:?, (Utf8.valid (stdout o)) eqn:?,
           (Utf8.valid (stderr o)) eqn:?; simpl.

(** C5 (amended). The outcomes of [run_command]: [Ok] exactly when the
    process ran, exited successfully and its stdout is UTF-8 (the value
    is that stdout); [ErrorSpawning] with the program name exactly when
    it could not be started; [Error] with the status, the program name
    and the extracted message exactly when it ran, exited nonzero and
    both outputs are UTF-8; a panic in the remaining cases. *)
Theorem run_command_outcomes (cmd : string) (spawned : option Output) :
  (forall s, run_command cmd spawned = Ok s <->
     exists o, spawned = Some o /\ success (status o) = true /\
               Utf8.valid (stdout o) = true /\ s = stdout o) /\
  (forall c, run_command cmd spawned = Err (ErrorSpawning c) <->
     spawned = None /\ c = cmd) /\
  (forall st c m, run_command cmd spawned = Err (Error st c m) <->
     exists o, spawned = Some o /\ success (status o) = false /\
               Utf8.valid (stdout o) = true /\ Utf8.valid (stderr o) = true /\
               st = status o /\ c = cmd /\ m = extract_message (stdout o) (stderr o)) /\
  ((exists msg, run_command cmd spawned = Panic msg) <->
     exists o, spawned = Some o /\
               (Utf8.valid (stdout o) = false \/
                (success (status o) = false /\ Utf8.valid (stderr o) = false))).
Proof.
  destruct spawned as [o|]; cycle 1.
  { simpl. split; [|split; [|split]].
    - intros s. split; [discriminate|]. intros (o & Ho & _). discriminate.
    - intros c. split; [intros H; injection H as <-; auto|]. intros [_ ->]. reflexivity.
    - intros st c m. split; [discriminate|]. intros (o & Ho & _). discriminate.
    - split; [intros (m & Hm); discriminate|]. intros (o & Ho & _). discriminate. }
  split; [|split; [|split]].
  - intros s. split.
    + run_cases o; intros H; try discriminate; injection H as <-; eauto.
    + intros (o' & Ho & Hs & Hv & ->). injection Ho as <-.
      rewrite run_command_ran, Hs, Hv. reflexivity.
  - intros c. split; [|intros [H _]; discriminate].
    run_cases o; intros H; discriminate.
  - intros st c m. split.
    + run_cases o; intros H; try discriminate; injection H as <- <- <-;
      exists o; auto 10.
    + intros (o' & Ho & Hs & Hv1 & Hv2 & -> & -> & ->). injection Ho as <-.
      rewrite run_command_ran, Hs, Hv1, Hv2. reflexivity.
  - split.
    + intros (m & Hm). revert Hm. run_cases o; intros H; try discriminate;
        exists o; auto.
    + intros (o' & Ho & Hbad). injection Ho as <-. exists "latex, typst, dvisvgm always have utf8 outputs".
      revert Hbad. run_cases o; intros Hbad; try reflexivity;
        destruct Hbad as [?|[? ?]]; congruence.
Qed.

(** C5 fails as stated: a successful exit whose stdout is not UTF-8 is
    not [Ok]; [utf8_to_string]'s [expect] panics. *)
Lemma run_command_success_not_utf8 :
  success (mkExitStatus (Some 0%Z)) = true /\
  run_command "dvisvgm" (Some (mkOutput (mkExitStatus (Some 0%Z)) BAD ""))
  = Panic "latex, typst, dvisvgm always have utf8 outputs".
Proof. split; reflexivity. Qed.

(** C10 (amended). After a successful exit the result never depends on
    stderr (it is not even decoded): it is [Ok] of stdout when stdout is
    UTF-8, and a panic otherwise, whatever stderr holds. *)
Theorem run_command_success_ignores_stderr (cmd : string) (st : ExitStatus)
    (out err1 err2 : string) :
  success st = true ->
  run_command cmd (Some (mkOutput st out err1))
  = run_command cmd (Some (mkOutput st out err2)) /\
  run_command cmd (Some (mkOutput st out err1))
  = (if Utf8.valid out then Ok out
     else Panic "latex, typst, dvisvgm always have utf8 outputs").
Proof. intros Hs. unfold run_command. simpl. rewrite Hs. split; reflexivity. Qed.

Lemma run_command_success_ignores_stderr_witness :
  success (mkExitStatus (Some 0%Z)) = true /\
  run_command "latex" (Some (mkOutput (mkExitStatus (Some 0%Z)) "done" "warning: font"))
  = Ok "done".
Proof.
  split; [reflexivity|].
  destruct (run_command_success_ignores_stderr "latex" (mkExitStatus (Some 0%Z))
              "done" "warning: font" "" eq_refl) as [_ H].
  rewrite H. reflexivity.
Defined.

(** C10 fails as stated: a successful exit that printed to stderr does
    not yield [Ok] when its stdout is not UTF-8. *)
Lemma run_command_success_warning_panics :
  run_command "typst" (Some (mkOutput (mkExitStatus (Some 0%Z)) BAD "warning: unused"))
  = Panic "latex, typst, dvisvgm always have utf8 outputs".
Proof. reflexivity. Qed.

(** C6. The equation hash is a function of the equation text alone:
    SipHash-1-3 under the constant keys (0, 0) of the bytes of the text
    followed by [0xFF]. Two GUI states with the same equation get the same
    hash, the same [latex_<hash>] directory and, for the LaTeX backend,
    the same cache directory, whatever else differs between them. *)
Theorem equation_hash_deterministic (tool : string -> list string -> string -> FS -> option Output * FS)
    (cache_root : string) (g1 g2 : Gui) :
  equation g1 = equation g2 ->
  equation_hash g1 = Z.to_N (Sip.siphash13 0 0 (str_hash_bytes (equation g1))) /\
  equation_hash g1 = equation_hash g2 /\
  get_dir cache_root (equation_hash g1) = get_dir cache_root (equation_hash g2) /\
  (backend g1 = Backend.LaTeX -> backend g2 = Backend.LaTeX ->
   cache_dir cache_root g1 = cache_dir cache_root g2).
Proof.
  intros Heq.
  assert (Hh : equation_hash g1 = equation_hash g2)
    by (unfold equation_hash; rewrite Heq; reflexivity).
  split; [reflexivity|]. split; [exact Hh|]. split; [rewrite Hh; reflexivity|].
  intros H1 H2. unfold cache_dir. rewrite H1, H2, Hh. reflexivity.
Qed.

Definition sample_gui (eq : string) (fmt : ImageFormat.t) (b : Backend.t) : Gui :=
  mkGui eq None (Some "blue") "white" fmt 600 "/home/u" State.Compiling b "/tmp/typst_s".

Lemma equation_hash_deterministic_witness :
  equation (sample_gui "x^2" ImageFormat.Svg Backend.LaTeX)
  = equation (sample_gui "x^2" ImageFormat.Png Backend.Typst) /\
  equation_hash (sample_gui "x^2" ImageFormat.Svg Backend.LaTeX)
  = equation_hash (sample_gui "x^2" ImageFormat.Png Backend.Typst).
Proof.
  split; [reflexivity|].
  apply (equation_hash_deterministic (fun _ _ _ f => (None, f)) "/c"
           (sample_gui "x^2" ImageFormat.Svg Backend.LaTeX)
           (sample_gui "x^2" ImageFormat.Png Backend.Typst) eq_refl).
Defined.

(** C4. A compile request with an empty equation ends at once in the
    [NoEquation] error state and leaves the world as it was: no file
    touched, no directory changed, no process started. *)
Theorem compile_empty_equation (tool : string -> list string -> string -> FS -> option Output * FS)
    (cache_root : string) (g : Gui) (w : World) :
  equation g = "" ->
  compile tool cache_root g w
  = Finished (set_state g (State.Errored (NoEquation (Backend.stylized (backend g))))) w.
Proof.
  intros Heq. unfold compile. simpl. unfold update_compile. rewrite Heq. reflexivity.
Qed.

Lemma compile_empty_equation_witness :
  equation (sample_gui "" ImageFormat.Svg Backend.LaTeX) = "" /\
  compile (fun _ _ _ f => (None, f)) "/c" (sample_gui "" ImageFormat.Svg Backend.LaTeX)
    (mkWorld (mkFS {["/"]} ∅) "/" [])
  = Finished (set_state (sample_gui "" ImageFormat.Svg Backend.LaTeX)
                (State.Errored (NoEquation "LaTeX"))) (mkWorld (mkFS {["/"]} ∅) "/" []).
Proof.
  split; [reflexivity|].
  apply (compile_empty_equation (fun _ _ _ f => (None, f)) "/c"
           (sample_gui "" ImageFormat.Svg Backend.LaTeX) (mkWorld (mkFS {["/"]} ∅) "/" [])).
  reflexivity.
Defined.

(* ------------------------------------------------------------------ *)
(** ** Which processes an operation can start *)

Section Effects.

Variable tool : string -> list string -> string -> FS -> option Output * FS.
Variable cache_root : string.

Lemma bind_unfold {A B} (m : M A) (k : A -> M B) (w : World) :
  (m ≫= k) w = match m w with
               | (Ok a, w') => k a w'
               | (Err e, w') => (Err e, w')
               | (Panic s, w') => (Panic s, w')
               end.
Proof. reflexivity. Qed.

(** [m] appends to the trace a prefix of [full], all of it when it
    returns [Ok]. *)
Definition emits {A} (m : M A) (full : list (string * list string)) : Prop :=
  forall w, exists t, trace (snd (m w)) = (trace w ++ t)%list /\ t `prefix_of` full /\
                 (forall a, fst (m w) = Ok a -> t = full).

(** An [io] operation starts no process. *)
Definition quiet {A} (op : io A) : Prop := forall w, trace (snd (op w)) = trace w.

Lemma emits_ret {A} (a : A) : emits (mret a) [].
Proof. intros w. exists []. simpl. rewrite app_nil_r. auto. Qed.

Lemma emits_or_err {A} (op : io A) (e : GuiError) : quiet op -> emits (or_err op e) [].
Proof.
  intros Hq w. exists []. unfold or_err. rewrite app_nil_r.
  specialize (Hq w). destruct (op w) as [[a|] w']; simpl in *; auto.
Qed.

Lemma emits_run_cmd (p : string) (args : list string) :
  emits (run_cmd tool p args) [(p, args)].
Proof.
  intros w. exists [(p, args)]. unfold run_cmd.
  destruct (tool p args (cwd w) (fs w)) as [o f'].
  destruct (run_command p o); simpl; auto.
Qed.

Lemma emits_bind {A B} (m : M A) (k : A -> M B) f1 f2 :
  emits m f1 -> (forall a, emits (k a) f2) -> emits (m ≫= k) (f1 ++ f2)%list.
Proof.
  intros Hm Hk w. rewrite bind_unfold.
  destruct (Hm w) as (t1 & Ht1 & Hp1 & Hok1).
  destruct (m w) as [[a|e|s] w1] eqn:E; simpl in *.
  - rewrite (Hok1 a eq_refl) in Ht1.
    destruct (Hk a w1) as (t2 & Ht2 & Hp2 & Hok2).
    exists (f1 ++ t2)%list. split; [rewrite Ht2, Ht1, app_assoc; reflexivity|].
    split; [apply prefix_app; exact Hp2|]. intros b Hb. rewrite (Hok2 b Hb). reflexivity.
  - exists t1. split; [exact Ht1|]. split; [apply prefix_app_r; exact Hp1|discriminate].
  - exists t1. split; [exact Ht1|]. split; [apply prefix_app_r; exact Hp1|discriminate].
Qed.

Lemma quiet_current_dir : quiet current_dir.
Proof. intros w. unfold current_dir. case_bool_decide; reflexivity. Qed.

Lemma quiet_set_current_dir p : quiet (set_current_dir p).
Proof. intros w. unfold set_current_dir. case_bool_decide; reflexivity. Qed.

Lemma quiet_create_dir p : quiet (create_dir p).
Proof. intros w. unfold create_dir. destruct (_ || _); reflexivity. Qed.

Lemma quiet_write p c : quiet (write p c).
Proof. intros w. unfold write. destruct (_ && _); reflexivity. Qed.

Lemma quiet_read_to_string p : quiet (read_to_string p).
Proof.
  intros w. unfold read_to_string. destruct (_ !! _); [destruct (Utf8.valid _)|]; reflexivity.
Qed.

Lemma quiet_copy src dst : quiet (copy src dst).
Proof. intros w. unfold copy. destruct (_ !! _); [apply quiet_write|reflexivity]. Qed.

Create HintDb emits_db.
#[local] Hint Resolve emits_ret emits_run_cmd quiet_current_dir quiet_set_current_dir
  quiet_create_dir quiet_write quiet_read_to_string quiet_copy : emits_db.

(** Splits a program into its steps and checks each. *)
Ltac emits_steps :=
  repeat (apply emits_bind; [|intros ?]);
  first [ apply emits_or_err; eauto with emits_db | eauto with emits_db ].

Lemma set_color_in_emits dir color : emits (set_color_in dir color) [].
Proof.
  unfold set_color_in. change (@nil (string * list string)) with ([] ++ [] : list (string * list string))%list.
  apply emits_bind; [apply emits_or_err; auto with emits_db|intros svg].
  apply emits_or_err; auto with emits_db.
Qed.

Lemma emits_bind' {A B} (m : M A) (k : A -> M B) f1 f2 full :
  emits m f1 -> (forall a, emits (k a) f2) -> full = (f1 ++ f2)%list -> emits (m ≫= k) full.
Proof. intros H1 H2 ->. apply emits_bind; assumption. Qed.

Lemma set_color_emits hash color : emits (set_color cache_root hash color) [].
Proof. apply set_color_in_emits. Qed.

Ltac emits_prog :=
  match goal with
  | |- emits (_ ≫= _) _ =>
      eapply emits_bind'; [emits_prog | intros ?; cbv beta zeta; emits_prog | reflexivity]
  | |- emits (or_err _ _) _ => apply emits_or_err; auto with emits_db
  | |- emits (run_cmd _ _ _) _ => apply emits_run_cmd
  | |- emits (mret _) _ => apply emits_ret
  | |- emits (set_color_in _ _) _ => apply set_color_in_emits
  | |- emits (set_color _ _ _) _ => apply set_color_emits
  end.

(** latex.rs [gen_png] starts at most the rasterizer, once. *)
Lemma latex_gen_png_emits dir color density :
  emits (latex_gen_png tool dir color density)
    [("magick.exe", ["convert"; "-background"; "none"; "-density"; pretty density;
                     color ++ "_eq.svg"; color ++ "_eq.png"])].
Proof. unfold latex_gen_png. emits_prog. Qed.

(** latex.rs [gen_svg] starts at most the typesetting engine and then the
    DVI converter. *)
Lemma latex_gen_svg_emits latex hash color :
  emits (latex_gen_svg tool cache_root latex hash color)
    [("latex", ["-no-shell-escape"; "-interaction=nonstopmode"; "-halt-on-error"; "eq.tex"]);
     ("dvisvgm", ["--no-fonts"; "--scale=1"; "--exact"; "-o eq.svg"; "eq.dvi"])].
Proof. unfold latex_gen_svg. emits_prog. Qed.

(** typst.rs [gen_image] starts at most the Typst compiler, once. *)
Lemma typst_gen_image_emits eq dir color image :
  emits (typst_gen_image tool eq dir color image) [(TYPST, typst_args color image)].
Proof. unfold typst_gen_image. emits_prog. Qed.

End Effects.

(* ------------------------------------------------------------------ *)
(** ** The LaTeX compile flow on a cached equation *)

Section CompileFlow.

Variable tool : string -> list string -> string -> FS -> option Output * FS.
Variable cache_root : string.

Lemma prefix_singleton {A} (t : list A) (x : A) : t `prefix_of` [x] -> t = [] \/ t = [x].
Proof.
  destruct t as [|y t]; [auto|]. intros Hp. right.
  pose proof (prefix_cons_inv_1 _ _ _ _ Hp) as ->.
  apply prefix_cons_inv_2, prefix_nil_inv in Hp as ->. reflexivity.
Qed.

(** Showing a finished result copies a file and starts nothing. *)
Lemma show_result_quiet (g : Gui) (w : World) :
  trace (snd (show_result cache_root g w)) = trace w.
Proof.
  unfold show_result, copy_to_dest.
  match goal with |- context [copy ?a ?b w] =>
    pose proof (quiet_copy a b w); destruct (copy a b w) as [[u|] w'] end;
  simpl in *; auto.
Qed.

Definition magick_args (color : string) (density : nat) : list string :=
  ["convert"; "-background"; "none"; "-density"; pretty density;
   color ++ "_eq.svg"; color ++ "_eq.png"].

Lemma backend_gen_png_latex_emits eq dir color density :
  emits (backend_gen_png tool Backend.LaTeX eq dir color density)
    [("magick.exe", magick_args color density)].
Proof.
  simpl. rewrite <- (app_nil_r [("magick.exe", magick_args color density)]).
  apply emits_bind; [apply latex_gen_png_emits|intros; apply emits_ret].
Qed.

Ltac use_copy :=
  unfold copy_to_dest;
  match goal with |- context [copy ?a ?b ?w] =>
    let H := fresh "Hq" in
    pose proof (quiet_copy a b w) as H; destruct (copy a b w) as [[?|] ?]; simpl in H
  end.

Ltac use_set_color :=
  match goal with |- context [set_color_in ?d ?c ?w] =>
    let t := fresh "t" in let H := fresh "Ht" in let Hp := fresh "Hp" in
    pose proof (set_color_in_emits d c w) as (t & H & Hp & _);
    apply prefix_nil_inv in Hp; subst t;
    destruct (set_color_in d c w) as [[?|?|?] ?]; simpl in H; rewrite app_nil_r in H
  end.

Ltac use_gen_png :=
  match goal with |- context [backend_gen_png tool Backend.LaTeX ?e ?d ?c ?n ?w] =>
    let t := fresh "t" in let H := fresh "Ht" in let Hp := fresh "Hp" in
    pose proof (backend_gen_png_latex_emits e d c n w) as (t & H & Hp & _);
    apply prefix_singleton in Hp;
    destruct (backend_gen_png tool Backend.LaTeX e d c n w) as [[?|?|?] ?]; simpl in H
  end.

Lemma compile_cached_trace (g : Gui) (w : World) :
  backend g = Backend.LaTeX -> equation g <> "" ->
  path_exists (fs w) (resolve w (get_dir cache_root (equation_hash g))) = true ->
  exists w', outcome_world (compile tool cache_root g w) = Some w' /\
    (format g = ImageFormat.Svg -> trace w' = trace w) /\
    (format g = ImageFormat.Png ->
       trace w' = trace w \/
       trace w' = (trace w ++ [("magick.exe", magick_args (gui_color g) (dpi g))])%list).
Proof.
  intros Hb Hne Hex.
  unfold compile, run. simpl update. unfold update_compile.
  rewrite (proj2 (String.eqb_neq (equation g) "") Hne).
  set (c := gui_color g). set (g1 := set_compiled_color (set_state g State.Compiling) c).
  assert (Hb1 : backend g1 = Backend.LaTeX) by exact Hb.
  assert (Hh1 : equation_hash g1 = equation_hash g) by reflexivity.
  assert (Hf1 : format g1 = format g) by reflexivity.
  assert (Hc1 : gui_color g1 = c) by reflexivity.
  assert (Hd1 : dpi g1 = dpi g) by reflexivity.
  assert (He1 : equation g1 = equation g) by reflexivity.
  simpl. rewrite ?Hb1, ?Hb, Hh1, Hex.
  destruct (format g) eqn:Hf; simpl.
  - clear Hex.
    match goal with |- context [path_exists (fs w) (resolve w (Path.join ?d ?p))] =>
      destruct (path_exists (fs w) (resolve w (Path.join d p))) end; simpl.
    + unfold show_result. use_copy; eexists; (split; [reflexivity|]);
        split; intros; congruence.
    + use_set_color; simpl; unfold update_svg_generated; simpl; rewrite ?Hf1, ?Hf;
        try (unfold show_result; use_copy);
        eexists; (split; [reflexivity|]); split; intros; congruence.
  - rewrite andb_false_r. simpl.
    use_set_color; simpl; unfold update_svg_generated; simpl; rewrite ?Hf1, ?Hf;
      try (eexists; (split; [reflexivity|]); split; intros; [congruence|left; congruence]).
    rewrite ?Hb1, ?Hb, ?Hc1, ?Hd1.
    use_gen_png; simpl; unfold update_png_generated; simpl;
      try (unfold show_result; use_copy);
      eexists; (split; [reflexivity|]); (split; [intros; congruence|]); intros;
      destruct Hp as [->| ->]; rewrite ?app_nil_r in *; first [left; congruence | right; congruence].
Qed.

(** C2 (amended). For the LaTeX backend, when the hash-derived cache
    directory already exists, a compile request never starts the
    typesetting engine or the DVI converter. For SVG output it starts no
    process at all (the color substitution alone runs when the colored
    SVG is missing, and nothing runs when it is there); for PNG output the
    color substitution runs and then at most the rasterizer, once. *)
Theorem compile_cached_latex_reuses (g : Gui) (w : World) :
  backend g = Backend.LaTeX -> equation g <> "" ->
  path_exists (fs w) (resolve w (get_dir cache_root (equation_hash g))) = true ->
  exists w', outcome_world (compile tool cache_root g w) = Some w' /\
    (format g = ImageFormat.Svg -> trace w' = trace w) /\
    (format g = ImageFormat.Png ->
       trace w' = trace w \/
       trace w' = (trace w ++ [("magick.exe", magick_args (gui_color g) (dpi g))])%list).
Proof. apply compile_cached_trace. Qed.

(** C9. [gen_svg] on an existing cache directory fails at [create_dir]
    with [TempDir] (or already at [current_dir] with [GetSetCurrentDir]),
    leaving the world as it was, so no process is started; and a compile
    request whose cache directory exists starts neither [latex] nor
    [dvisvgm]: only the GUI's existence check keeps [gen_svg] from being
    called again for a known equation. *)
Theorem latex_gen_svg_existing_dir (latex : string) (hash : N) (color : string) (w : World) :
  path_exists (fs w) (resolve w (get_dir cache_root hash)) = true ->
  latex_gen_svg tool cache_root latex hash color w
  = ((if bool_decide (cwd w ∈ dirs (fs w)) then Err TempDir else Err GetSetCurrentDir), w) /\
  (forall g, backend g = Backend.LaTeX -> equation g <> "" -> equation_hash g = hash ->
   exists w' t, outcome_world (compile tool cache_root g w) = Some w' /\
     trace w' = (trace w ++ t)%list /\ forall p args, (p, args) ∈ t -> p = "magick.exe").
Proof.
  intros Hex. split.
  - unfold latex_gen_svg. rewrite bind_unfold. unfold or_err at 1, current_dir.
    case_bool_decide; [|reflexivity].
    simpl. rewrite bind_unfold. unfold or_err at 1, create_dir. rewrite Hex. reflexivity.
  - intros g Hb Hne <-.
    destruct (compile_cached_trace g w Hb Hne Hex) as (w' & Hw & HSvg & HPng).
    exists w'. destruct (format g).
    + exists []. rewrite app_nil_r. split; [exact Hw|]. split; [exact (HSvg eq_refl)|].
      intros p args Hin. apply elem_of_nil in Hin. contradiction.
    + destruct (HPng eq_refl) as [H|H].
      * exists []. rewrite app_nil_r. split; [exact Hw|]. split; [exact H|].
        intros p args Hin. apply elem_of_nil in Hin. contradiction.
      * eexists. split; [exact Hw|]. split; [exact H|].
        intros p args Hin. apply list_elem_of_singleton in Hin. congruence.
Qed.

End CompileFlow.

(** A tool that always starts and exits successfully, writing [eq.svg]
    into its working directory (as [dvisvgm] does). *)
Definition tool_ok (p : string) (args : list string) (dir : string) (f : FS) : option Output * FS :=
  (Some (mkOutput (mkExitStatus (Some 0%Z)) "" ""),
   mkFS (dirs f) (<[Path.join dir "eq.svg" := "<svg fill='#fff'/>"]> (files f))).

Definition cached_dir : string := get_dir "/c" (default_hash_str "x").

(** A world in which the equation ["x"] was already typeset under the
    cache root ["/c"]. *)
Definition cached_world : World :=
  mkWorld (mkFS (list_to_set ["/"; "/c"; "/home"; "/home/u"; cached_dir])
                {[Path.join cached_dir "eq.svg" := "<svg fill='#fff'/>"]})
          "/home" [].

(** C2 fails as stated: on a cached equation with PNG output, more than
    the color substitution runs; the rasterizer is started. *)
Lemma compile_cached_png_runs_rasterizer :
  option_map trace
    (outcome_world (compile tool_ok "/c" (sample_gui "x" ImageFormat.Png Backend.LaTeX) cached_world))
  = Some [("magick.exe", magick_args "blue" 600)].
Proof. vm_compute. reflexivity. Qed.

Lemma compile_cached_latex_reuses_witness :
  backend (sample_gui "x" ImageFormat.Svg Backend.LaTeX) = Backend.LaTeX /\
  path_exists (fs cached_world)
    (resolve cached_world (get_dir "/c" (equation_hash (sample_gui "x" ImageFormat.Svg Backend.LaTeX))))
  = true /\
  exists w', outcome_world (compile tool_ok "/c" (sample_gui "x" ImageFormat.Svg Backend.LaTeX) cached_world) = Some w' /\
    trace w' = trace cached_world.
Proof.
  assert (Hex : path_exists (fs cached_world)
    (resolve cached_world (get_dir "/c" (equation_hash (sample_gui "x" ImageFormat.Svg Backend.LaTeX))))
    = true) by (vm_compute; reflexivity).
  split; [reflexivity|]. split; [exact Hex|].
  destruct (compile_cached_latex_reuses tool_ok "/c" (sample_gui "x" ImageFormat.Svg Backend.LaTeX)
              cached_world eq_refl ltac:(discriminate) Hex) as (w' & Hw & HSvg & _).
  exists w'. split; [exact Hw|exact (HSvg eq_refl)].
Defined.

Lemma latex_gen_svg_existing_dir_witness :
  latex_gen_svg tool_ok "/c" "x" (default_hash_str "x") "blue" cached_world
  = (Err TempDir, cached_world).
Proof.
  destruct (latex_gen_svg_existing_dir tool_ok "/c" "x" (default_hash_str "x") "blue" cached_world
              ltac:(vm_compute; reflexivity)) as [H _].
  rewrite H. vm_compute. reflexivity.
Defined.

(* ------------------------------------------------------------------ *)
(** ** The working directory around a backend operation *)

Section Cwd.

Variable tool : string -> list string -> string -> FS -> option Output * FS.
Variable cache_root : string.

Lemma bind_ok {A B} (m : M A) (k : A -> M B) (w w' : World) (b : B) :
  (m ≫= k) w = (Ok b, w') -> exists a w1, m w = (Ok a, w1) /\ k a w1 = (Ok b, w').
Proof. rewrite bind_unfold. destruct (m w) as [[a|e|s] w1]; intros H; try discriminate; eauto. Qed.

Lemma current_dir_ok (e : GuiError) (w w1 : World) (a : string) :
  or_err current_dir e w = (Ok a, w1) -> a = cwd w /\ w1 = w.
Proof.
  unfold or_err, current_dir. case_bool_decide; intros Hr; [|discriminate].
  injection Hr as <- <-. auto.
Qed.

Lemma set_current_dir_ok (e : GuiError) (p : string) (w w1 : World) (u : unit) :
  or_err (set_current_dir p) e w = (Ok u, w1) -> cwd w1 = resolve w p.
Proof.
  unfold or_err, set_current_dir. case_bool_decide; intros Hr; [|discriminate].
  injection Hr as _ <-. reflexivity.
Qed.

Lemma mret_ok {A} (x r : A) (w w' : World) : (mret x : M A) w = (Ok r, w') -> w' = w.
Proof. intros H. injection H as _ <-. reflexivity. Qed.

Lemma join_absolute (base p : string) : Path.is_absolute p = true -> Path.join base p = p.
Proof. intros H. unfold Path.join. rewrite H. reflexivity. Qed.

(** Splits a successful run into its successful steps. *)
Ltac peel H :=
  lazymatch type of H with
  | mbind _ _ _ = (Ok _, _) =>
      let Hk := fresh "Hk" in
      apply bind_ok in H; destruct H as (? & ? & ? & Hk); cbv beta zeta in Hk; peel Hk
  | _ => idtac
  end.

(** The first step read the working directory, the last-but-one set it
    back to that value, the last returned. *)
Ltac restored H :=
  peel H;
  match goal with Hr : mret _ _ = (Ok _, _) |- _ => apply mret_ok in Hr; subst end;
  match goal with Hc : or_err current_dir _ ?w = (Ok ?a, _) |- _ =>
    apply current_dir_ok in Hc as [-> ->] end;
  match goal with Hs : or_err (set_current_dir (cwd ?w)) _ _ = (Ok _, _) |- _ =>
    apply set_current_dir_ok in Hs; rewrite Hs; unfold resolve; apply join_absolute; assumption
  end.

(** C7. Whenever LaTeX [gen_svg], LaTeX [gen_png] or Typst [gen_image]
    returns [Ok], the working directory is the one it started in (which
    [env::current_dir] reports as an absolute path). *)
Theorem backends_restore_cwd (w w' : World) :
  Path.is_absolute (cwd w) = true ->
  (forall latex hash color dir,
     latex_gen_svg tool cache_root latex hash color w = (Ok dir, w') -> cwd w' = cwd w) /\
  (forall dir color density dir',
     latex_gen_png tool dir color density w = (Ok dir', w') -> cwd w' = cwd w) /\
  (forall eq dir color image,
     typst_gen_image tool eq dir color image w = (Ok (), w') -> cwd w' = cwd w).
Proof.
  intros Habs. split; [|split].
  - intros latex hash color dir H. unfold latex_gen_svg in H. restored H.
  - intros dir color density dir' H. unfold latex_gen_png in H. restored H.
  - intros eq dir color image H. unfold typst_gen_image in H. restored H.
Qed.

End Cwd.

Lemma backends_restore_cwd_witness :
  Path.is_absolute (cwd cached_world) = true /\
  cwd (snd (latex_gen_png tool_ok cached_dir "blue" 600 cached_world)) = cwd cached_world.
Proof.
  split; [reflexivity|].
  apply (proj1 (proj2 (backends_restore_cwd tool_ok "/c" cached_world _ eq_refl))
           cached_dir "blue" 600 cached_dir).
  vm_compute. reflexivity.
Defined.

(* ------------------------------------------------------------------ *)
(** ** Paths below a directory *)



























(* ------------------------------------------------------------------ *)
(** ** The Typst backend's source file and compiler call *)

(** C8. When the working directory exists, [dir] is a directory and
    [eq.typ] can be created in it, Typst [gen_image] writes [eq.typ] with
    [typst_source eq color] (the preamble, the color, [")"], and the
    equation between ["$ "] and [" $"]) and then runs only the compiler
    call [typst_args color image] in [dir], followed by restoring the
    working directory. Every run starts at most that one process, and
    exactly that one when it returns [Ok]. *)
Theorem typst_gen_image_source_and_call
  (tool : string -> list string -> string -> FS -> option Output * FS)
  (eq dir color : string) (image : Image.t) (w : World) :
  (cwd w ∈ dirs (fs w) -> resolve w dir ∈ dirs (fs w) ->
   Path.parent (Path.join (resolve w dir) "eq.typ") ∈ dirs (fs w) ->
   Path.join (resolve w dir) "eq.typ" ∉ dirs (fs w) ->
   typst_gen_image tool eq dir color image w =
     (run_cmd tool TYPST (typst_args color image);;
      or_err (set_current_dir (cwd w)) GetSetCurrentDir;;
      mret ())
     (mkWorld (mkFS (dirs (fs w))
                    (<[Path.join (resolve w dir) "eq.typ" := typst_source eq color]> (files (fs w))))
              (resolve w dir) (trace w))) /\
  (exists t, trace (snd (typst_gen_image tool eq dir color image w)) = (trace w ++ t)%list /\
     t `prefix_of` [(TYPST, typst_args color image)] /\
     (fst (typst_gen_image tool eq dir color image w) = Ok () -> t = [(TYPST, typst_args color image)])).
Proof.
  split.
  - intros Hc Hd Hp Hn. unfold typst_gen_image. rewrite bind_unfold.
    unfold or_err at 1, current_dir. rewrite bool_decide_true by exact Hc.
    rewrite bind_unfold. unfold or_err at 1, set_current_dir. rewrite bool_decide_true by exact Hd.
    rewrite bind_unfold. unfold or_err at 1, write. cbn [fs files dirs cwd trace]. unfold resolve at 1 2.
    cbn [cwd]. rewrite bool_decide_true by exact Hp. rewrite bool_decide_false by exact Hn.
    reflexivity.
  - destruct (typst_gen_image_emits tool eq dir color image w) as (t & Ht & Hp & Hok).
    exists t. split; [exact Ht|]. split; [exact Hp|exact (Hok ())].
Qed.

Definition typst_world : World :=
  mkWorld (mkFS (list_to_set ["/"; "/t"]) ∅) "/" [].

Lemma typst_gen_image_source_and_call_witness :
  files (fs (snd (typst_gen_image tool_ok "x" "/t" "red" Image.Svg typst_world))) !! "/t/eq.typ"
    = Some (typst_source "x" "red") /\
  trace (snd (typst_gen_image tool_ok "x" "/t" "red" Image.Svg typst_world))
    = [(TYPST, ["compile"; "eq.typ"; "red_eq.svg"; "--diagnostic-format"; "short"])].
Proof.
  rewrite (proj1 (typst_gen_image_source_and_call tool_ok "x" "/t" "red" Image.Svg typst_world)
             ltac:(refine (bool_decide_unpack _ _); vm_compute; exact I)
             ltac:(refine (bool_decide_unpack _ _); vm_compute; exact I)
             ltac:(refine (bool_decide_unpack _ _); vm_compute; exact I)
             ltac:(refine (bool_decide_unpack _ _); vm_compute; exact I)).
  vm_compute. split; reflexivity.
Defined.

(* ------------------------------------------------------------------ *)
(** ** The whole compile flow, the other messages of [Gui::update], [Gui::new] and [typst::watch] *)

Section Flow.
Variable tool : string -> list string -> string -> FS -> option Output * FS.
Variable root : string.

Lemma show_result_inv (g g' : Gui) (c : Cmd) (w w' : World) :
  show_result root g w = (Some (g', c), w') -> g' = g /\ c = CmdNone.
Proof.
  unfold show_result. destruct (copy_to_dest root g w) as [[u|] w1]; intros H; [|discriminate].
  injection H as <- <- _. auto.
Qed.

Lemma update_png_generated_none (r : res unit GuiError) (g g' : Gui) (c : Cmd) (w w' : World) :
  update_png_generated root r g w = (Some (g', c), w') -> c = CmdNone.
Proof.
  destruct r as [u|e|s]; simpl.
  - intros H. apply show_result_inv in H. tauto.
  - intros H. injection H as _ <- _. reflexivity.
  - discriminate.
Qed.

Lemma update_svg_generated_perform (r : res unit GuiError) (g g' : Gui) t f (w w' : World) :
  update_svg_generated tool root r g w = (Some (g', Perform t f), w') ->
  f = Message.PngGenerated /\ g' = g /\ format g = ImageFormat.Png /\ w' = w /\
  t = backend_gen_png tool (backend g) (equation g) (cache_dir root g) (gui_color g) (dpi g).
Proof.
  destruct r as [u|e|s]; simpl; [|intros H; injection H; discriminate|discriminate].
  destruct (format g) eqn:Hf.
  - intros H. apply show_result_inv in H as [_ H]. discriminate.
  - intros H. injection H as <- <- <- <-. auto.
Qed.

Lemma update_compile_perform (g g' : Gui) t f (w w' : World) :
  update_compile tool root g w = (Some (g', Perform t f), w') ->
  w' = w /\
  (f = Message.SvgGenerated \/
   (f = Message.PngGenerated /\ format g' = ImageFormat.Png)).
Proof.
  unfold update_compile. destruct (String.eqb (equation g) "").
  { intros H. injection H. discriminate. }
  cbv zeta. destruct (backend _).
  - destruct (path_exists _ _).
    + destruct (_ && _).
      * intros H. apply update_svg_generated_perform in H as (-> & -> & Hf & -> & _). auto.
      * intros H. injection H as _ _ <- <-. auto.
    + intros H. injection H as _ _ <- <-. auto.
  - intros H. injection H as _ _ <- <-. auto.
Qed.

Lemma run_S (n : nat) (msg : Message.t) (g : Gui) (w : World) :
  run tool root (S n) msg g w =
  match update tool root msg g w with
  | (None, w') => Panicked w'
  | (Some (g', CmdNone), w') => Finished g' w'
  | (Some (g', Perform task f), w') =>
      match task w' with
      | (Ok _, w'') => run tool root n (f (Ok ())) g' w''
      | (Err e, w'') => run tool root n (f (Err e)) g' w''
      | (Panic _, w'') => Panicked w''
      end
  end.
Proof. reflexivity. Qed.

Lemma run_png_fuel (n : nat) (r : res unit GuiError) (g : Gui) (w : World) :
  run tool root n (Message.PngGenerated r) g w <> OutOfFuel.
Proof.
  destruct n; simpl;
  destruct (update_png_generated root r g w) as [[[g' c]|] w'] eqn:E; try discriminate;
  apply update_png_generated_none in E; subst c; discriminate.
Qed.

Lemma run_svg_fuel (n : nat) (r : res unit GuiError) (g : Gui) (w : World) :
  run tool root (S n) (Message.SvgGenerated r) g w <> OutOfFuel.
Proof.
  rewrite run_S. cbn [update]. destruct (update_svg_generated tool root r g w) as [[[g' [|t f]]|] w'] eqn:E;
    try discriminate.
  apply update_svg_generated_perform in E as (-> & _).
  destruct (t w') as [[?|?|?] ?]; try discriminate; apply run_png_fuel.
Qed.

(** gui.rs, [update]: the chain of messages a compile request starts
    ([Compile], then [SvgGenerated], then [PngGenerated]) always ends
    within the bound of [compile]: the runtime never loops. *)
Theorem compile_never_out_of_fuel (g : Gui) (w : World) :
  compile tool root g w <> OutOfFuel.
Proof.
  unfold compile. rewrite run_S. cbn [update].
  destruct (update_compile tool root g w) as [[[g' [|t f]]|] w'] eqn:E; try discriminate.
  apply update_compile_perform in E as [_ [-> | [-> _]]];
  destruct (t w') as [[?|?|?] ?]; try discriminate;
  first [apply run_svg_fuel | apply run_png_fuel].
Qed.


Definition copy_dest (g : Gui) : string :=
  Path.join (out_dir g)
    (match name g with
     | Some n => n
     | None => ImageFormat.default_file_name (format g)
     end).

Definition result_shown (g : Gui) (w : World) : Prop :=
  (exists e, state g = State.Errored e) \/
  (exists s, ((state g = State.Svg (cache_dir root g) /\ format g = ImageFormat.Svg) \/
              (state g = State.Png (cache_dir root g) /\ format g = ImageFormat.Png)) /\
             view_read g w = Some (Some s) /\
             files (fs w) !! resolve w (copy_dest g) = Some s).

Lemma show_result_copied (g g' : Gui) (c : Cmd) (w w' : World) :
  show_result root g w = (Some (g', c), w') ->
  g' = g /\ c = CmdNone /\
  exists s,
    files (fs w') !! resolve w' (Path.join (cache_dir root g)
                                  (compiled_color g ++ "_eq." ++ ImageFormat.to_string (format g)))
    = Some s /\
    files (fs w') !! resolve w' (copy_dest g) = Some s.
Proof.
  unfold show_result, copy_to_dest, copy.
  destruct (files (fs w) !! _) as [s|] eqn:Hs; [|intros H; discriminate].
  unfold write. destruct (_ && _); [|intros H; discriminate].
  intros H. injection H as <- <- <-. split; [reflexivity|]. split; [reflexivity|].
  exists s. unfold resolve in *; cbn [fs files cwd] in *. split.
  - rewrite lookup_insert. case_decide; [reflexivity|exact Hs].
  - apply lookup_insert_eq.
Qed.

Lemma cache_dir_set_state (g : Gui) (st : State.t) :
  cache_dir root (set_state g st) = cache_dir root g.
Proof. reflexivity. Qed.

Lemma show_result_shown (g g' : Gui) (st : State.t) (c : Cmd) (w w' : World) :
  (st = State.Svg (cache_dir root g) /\ format g = ImageFormat.Svg) \/
  (st = State.Png (cache_dir root g) /\ format g = ImageFormat.Png) ->
  show_result root (set_state g st) w = (Some (g', c), w') -> result_shown g' w'.
Proof.
  intros Hst H. apply show_result_copied in H as (-> & _ & s & Hsrc & Hdst).
  rewrite cache_dir_set_state in Hsrc.
  change (compiled_color (set_state g st)) with (compiled_color g) in Hsrc.
  change (format (set_state g st)) with (format g) in Hsrc.
  right. exists s. rewrite cache_dir_set_state.
  change (format (set_state g st)) with (format g).
  unfold view_read, view_file. change (state (set_state g st)) with st.
  change (compiled_color (set_state g st)) with (compiled_color g).
  destruct Hst as [[-> Hf] | [-> Hf]]; rewrite Hf in Hsrc |- *.
  - change ("_eq." ++ ImageFormat.to_string ImageFormat.Svg) with "_eq.svg" in Hsrc.
    rewrite Hsrc. auto.
  - change ("_eq." ++ ImageFormat.to_string ImageFormat.Png) with "_eq.png" in Hsrc.
    rewrite Hsrc. auto.
Qed.

Lemma update_svg_generated_shown (r : res unit GuiError) (g g' : Gui) (w w' : World) :
  update_svg_generated tool root r g w = (Some (g', CmdNone), w') -> result_shown g' w'.
Proof.
  destruct r as [u|e|s]; simpl.
  - destruct (format g) eqn:Hf; [|intros H; discriminate].
    apply show_result_shown. left. auto.
  - intros H. injection H as <- _. left. eexists. reflexivity.
  - discriminate.
Qed.

Lemma update_png_generated_shown (r : res unit GuiError) (g g' : Gui) (w w' : World) :
  format g = ImageFormat.Png ->
  update_png_generated root r g w = (Some (g', CmdNone), w') -> result_shown g' w'.
Proof.
  intros Hf. destruct r as [u|e|s]; simpl.
  - apply show_result_shown. right. auto.
  - intros H. injection H as <- _. left. eexists. reflexivity.
  - discriminate.
Qed.

Lemma update_compile_shown (g g' : Gui) (w w' : World) :
  update_compile tool root g w = (Some (g', CmdNone), w') -> result_shown g' w'.
Proof.
  unfold update_compile. destruct (String.eqb (equation g) "").
  { intros H. injection H as <- _. left. eexists. reflexivity. }
  cbv zeta. destruct (backend _).
  - destruct (path_exists _ _).
    + destruct (_ && _).
      * apply update_svg_generated_shown.
      * discriminate.
    + discriminate.
  - discriminate.
Qed.

Lemma run_unfold (n : nat) (msg : Message.t) (g : Gui) (w : World) :
  run tool root n msg g w =
  match update tool root msg g w with
  | (None, w') => Panicked w'
  | (Some (g', CmdNone), w') => Finished g' w'
  | (Some (g', Perform task f), w') =>
      match n with
      | O => OutOfFuel
      | S n' =>
          match task w' with
          | (Ok _, w'') => run tool root n' (f (Ok ())) g' w''
          | (Err e, w'') => run tool root n' (f (Err e)) g' w''
          | (Panic _, w'') => Panicked w''
          end
      end
  end.
Proof. destruct n; reflexivity. Qed.

Lemma run_png_shown (n : nat) (r : res unit GuiError) (g g' : Gui) (w w' : World) :
  format g = ImageFormat.Png ->
  run tool root n (Message.PngGenerated r) g w = Finished g' w' -> result_shown g' w'.
Proof.
  intros Hf. rewrite run_unfold. cbn [update].
  destruct (update_png_generated root r g w) as [[[g1 [|t f]]|] w1] eqn:E; try discriminate.
  - intros H. injection H as <- <-. exact (update_png_generated_shown r g g1 w w1 Hf E).
  - apply update_png_generated_none in E. discriminate.
Qed.

Lemma run_svg_shown (n : nat) (r : res unit GuiError) (g g' : Gui) (w w' : World) :
  run tool root n (Message.SvgGenerated r) g w = Finished g' w' -> result_shown g' w'.
Proof.
  rewrite run_unfold. cbn [update].
  destruct (update_svg_generated tool root r g w) as [[[g1 [|t f]]|] w1] eqn:E; try discriminate.
  - intros H. injection H as <- <-. exact (update_svg_generated_shown r g g1 w w1 E).
  - apply update_svg_generated_perform in E as (-> & -> & Hf & _).
    destruct n; [discriminate|].
    destruct (t w1) as [[?|?|?] ?]; try discriminate; apply run_png_shown; exact Hf.
Qed.

(** gui.rs, [update] and [view]: a compile that finishes leaves the GUI
    either in an error state, or showing an image of the requested format
    from the cache directory that [view] can read, and whose bytes were
    copied to the destination file. *)
Theorem compile_finished_shown (g g' : Gui) (w w' : World) :
  compile tool root g w = Finished g' w' -> result_shown g' w'.
Proof.
  unfold compile. rewrite run_unfold. cbn [update].
  destruct (update_compile tool root g w) as [[[g1 [|t f]]|] w1] eqn:E; try discriminate.
  - intros H. injection H as <- <-. exact (update_compile_shown g g1 w w1 E).
  - apply update_compile_perform in E as [_ [-> | [-> Hf]]];
    destruct (t w1) as [[?|?|?] ?]; try discriminate;
    first [apply run_svg_shown | apply run_png_shown; exact Hf].
Qed.


Definition png_trace (g : Gui) : list (string * list string) :=
  match backend g with
  | Backend.LaTeX => [("magick.exe", magick_args (gui_color g) (dpi g))]
  | Backend.Typst => [(TYPST, typst_args (gui_color g) (Image.Png (dpi g)))]
  end.

Definition after_svg_trace (g : Gui) : list (string * list string) :=
  match format g with
  | ImageFormat.Svg => []
  | ImageFormat.Png => png_trace g
  end.

Lemma backend_gen_png_emits (g : Gui) :
  emits (backend_gen_png tool (backend g) (equation g) (cache_dir root g) (gui_color g) (dpi g))
        (png_trace g).
Proof.
  unfold png_trace. destruct (backend g).
  - apply backend_gen_png_latex_emits.
  - apply typst_gen_image_emits.
Qed.

Definition not_errored (g : Gui) : Prop := forall e, state g <> State.Errored e.

Lemma run_png_trace (n : nat) (r : res unit GuiError) (g : Gui) (w : World) :
  option_map trace (outcome_world (run tool root n (Message.PngGenerated r) g w)) = Some (trace w) /\
  (forall g' w', run tool root n (Message.PngGenerated r) g w = Finished g' w' ->
     not_errored g' -> r = Ok ()).
Proof.
  rewrite run_unfold. cbn [update]. destruct r as [[]|e|m]; cbn [update_png_generated].
  - pose proof (show_result_quiet root (set_state g (State.Png (cache_dir root g))) w) as Hq.
    destruct (show_result root _ w) as [[[g1 [|t f]]|] w1] eqn:E; simpl in Hq |- *.
    + split; [congruence|auto].
    + apply show_result_inv in E as [_ E]. discriminate.
    + split; [congruence|discriminate].
  - split; [reflexivity|]. intros g' w' H Hne. injection H as <- _. exfalso. exact (Hne e eq_refl).
  - split; [reflexivity|discriminate].
Qed.

Lemma run_svg_trace (n : nat) (r : res unit GuiError) (g : Gui) (w : World) :
  exists t,
    option_map trace (outcome_world (run tool root (S n) (Message.SvgGenerated r) g w))
      = Some (trace w ++ t)%list /\
    t `prefix_of` after_svg_trace g /\
    (forall g' w', run tool root (S n) (Message.SvgGenerated r) g w = Finished g' w' ->
       not_errored g' -> r = Ok () /\ t = after_svg_trace g).
Proof.
  rewrite run_unfold. cbn [update]. unfold after_svg_trace.
  destruct r as [[]|e|m]; cbn [update_svg_generated].
  - destruct (format g) eqn:Hf.
    + pose proof (show_result_quiet root (set_state g (State.Svg (cache_dir root g))) w) as Hq.
      exists []. rewrite app_nil_r.
      destruct (show_result root _ w) as [[[g1 [|t f]]|] w1] eqn:E; simpl in Hq |- *.
      * split; [congruence|]. split; [reflexivity|auto].
      * apply show_result_inv in E as [_ E]. discriminate.
      * split; [congruence|]. split; [reflexivity|discriminate].
    + destruct (backend_gen_png_emits g w) as (t & Ht & Hp & Hok).
      exists t. destruct (backend_gen_png _ _ _ _ _ _ w) as [[[]|e|m] w1]; simpl in Ht, Hok.
      * destruct (run_png_trace n (Ok ()) g w1) as [H1 H2].
        rewrite H1, Ht. split; [reflexivity|]. split; [exact Hp|].
        intros. split; [reflexivity|]. exact (Hok () eq_refl).
      * destruct (run_png_trace n (Err e) g w1) as [H1 H2].
        rewrite H1, Ht. split; [reflexivity|]. split; [exact Hp|].
        intros g' w' Hr Hne. specialize (H2 g' w' Hr Hne). discriminate.
      * simpl. rewrite Ht. split; [reflexivity|]. split; [exact Hp|discriminate].
  - exists []. rewrite app_nil_r. split; [reflexivity|]. split; [apply prefix_nil|].
    intros g' w' H Hne. injection H as <- _. exfalso. exact (Hne e eq_refl).
  - exists []. rewrite app_nil_r. split; [reflexivity|]. split; [apply prefix_nil|discriminate].
Qed.

Lemma compile_task_trace (g g1 : Gui) (task : M unit) (w : World) f1 :
  update_compile tool root g w = (Some (g1, Perform task Message.SvgGenerated), w) ->
  emits task f1 ->
  exists t,
    option_map trace (outcome_world (compile tool root g w)) = Some (trace w ++ t)%list /\
    t `prefix_of` (f1 ++ after_svg_trace g1)%list /\
    (forall g' w', compile tool root g w = Finished g' w' -> not_errored g' ->
       t = (f1 ++ after_svg_trace g1)%list).
Proof.
  intros E He. unfold compile. rewrite run_unfold. cbn [update]. rewrite E.
  destruct (He w) as (t1 & Ht1 & Hp1 & Hok1).
  destruct (task w) as [[[]|e|m] w1]; simpl in Ht1, Hok1.
  - destruct (run_svg_trace 1 (Ok ()) g1 w1) as (t2 & H1 & H2 & H3).
    rewrite (Hok1 () eq_refl) in Ht1.
    exists (f1 ++ t2)%list. rewrite H1, Ht1, app_assoc. split; [reflexivity|].
    split; [apply prefix_app; exact H2|].
    intros g' w' Hr Hne. destruct (H3 g' w' Hr Hne) as [_ ->]. reflexivity.
  - destruct (run_svg_trace 1 (Err e) g1 w1) as (t2 & H1 & H2 & H3).
    exists (t1 ++ t2)%list. rewrite H1, Ht1, app_assoc. split; [reflexivity|].
    split.
    + rewrite run_unfold in H1. cbn [update update_svg_generated] in H1.
      simpl in H1. injection H1 as H1. rewrite <- (app_nil_r (trace w1)) in H1 at 1.
      apply app_inv_head in H1. subst t2. rewrite app_nil_r.
      apply prefix_app_r. exact Hp1.
    + intros g' w' Hr Hne. destruct (H3 g' w' Hr Hne) as [H _]. discriminate.
  - exists t1. simpl. rewrite Ht1. split; [reflexivity|]. split; [apply prefix_app_r; exact Hp1|].
    discriminate.
Qed.


Definition compiling (g : Gui) : Gui :=
  set_compiled_color (set_state g State.Compiling) (gui_color g).

(** gui.rs, [update] with typst.rs, [gen_image]: a Typst compile of a
    non-empty equation starts the Typst compiler for the SVG, then once
    more for the PNG when that format is selected, and nothing else; when
    it finishes without an error every one of these calls was made. *)
Theorem typst_compile_trace (g : Gui) (w : World) :
  backend g = Backend.Typst -> equation g <> "" ->
  let full := ((TYPST, typst_args (gui_color g) Image.Svg) ::
               match format g with
               | ImageFormat.Svg => []
               | ImageFormat.Png => [(TYPST, typst_args (gui_color g) (Image.Png (dpi g)))]
               end)%list in
  exists t,
    option_map trace (outcome_world (compile tool root g w)) = Some (trace w ++ t)%list /\
    t `prefix_of` full /\
    (forall g' w', compile tool root g w = Finished g' w' -> not_errored g' -> t = full).
Proof.
  intros Hb Hne full.
  assert (E : update_compile tool root g w =
    (Some (compiling g, Perform (typst_gen_svg tool (equation g) (typst_dir g) (gui_color g))
                                Message.SvgGenerated), w)).
  { unfold update_compile. rewrite (proj2 (String.eqb_neq _ _) Hne). cbv zeta.
    cbn [backend equation set_compiled_color set_state]. rewrite Hb. reflexivity. }
  assert (Hfull : full = ([(TYPST, typst_args (gui_color g) Image.Svg)] ++
                          after_svg_trace (compiling g))%list).
  { unfold full, after_svg_trace, png_trace. change (format (compiling g)) with (format g).
    change (backend (compiling g)) with (backend g). rewrite Hb. reflexivity. }
  rewrite Hfull. eapply compile_task_trace; [exact E|].
  apply typst_gen_image_emits.
Qed.

(** gui.rs, [update] with latex.rs, [gen_svg] and [gen_png]: a LaTeX
    compile of an equation without cache directory starts latex, then
    dvisvgm, then magick for the PNG format, and nothing else; when it
    finishes without an error every one of these calls was made. *)
Theorem latex_fresh_compile_trace (g : Gui) (w : World) :
  backend g = Backend.LaTeX -> equation g <> "" ->
  path_exists (fs w) (resolve w (get_dir root (equation_hash g))) = false ->
  let full := ([("latex", ["-no-shell-escape"; "-interaction=nonstopmode"; "-halt-on-error"; "eq.tex"]);
                ("dvisvgm", ["--no-fonts"; "--scale=1"; "--exact"; "-o eq.svg"; "eq.dvi"])] ++
               match format g with
               | ImageFormat.Svg => []
               | ImageFormat.Png => [("magick.exe", magick_args (gui_color g) (dpi g))]
               end)%list in
  exists t,
    option_map trace (outcome_world (compile tool root g w)) = Some (trace w ++ t)%list /\
    t `prefix_of` full /\
    (forall g' w', compile tool root g w = Finished g' w' -> not_errored g' -> t = full).
Proof.
  intros Hb Hne Hex full.
  assert (E : update_compile tool root g w =
    (Some (compiling g, Perform (latex_gen_svg tool root (equation g) (equation_hash g) (gui_color g);;
                                 mret ())
                                Message.SvgGenerated), w)).
  { unfold update_compile. rewrite (proj2 (String.eqb_neq _ _) Hne). cbv zeta.
    cbn [backend set_compiled_color set_state]. rewrite Hb.
    change (equation_hash (set_compiled_color (set_state g State.Compiling) (gui_color g)))
      with (equation_hash g).
    rewrite Hex. reflexivity. }
  assert (Hfull : full = ([("latex", ["-no-shell-escape"; "-interaction=nonstopmode"; "-halt-on-error"; "eq.tex"]);
                ("dvisvgm", ["--no-fonts"; "--scale=1"; "--exact"; "-o eq.svg"; "eq.dvi"])] ++
                          after_svg_trace (compiling g))%list).
  { unfold full, after_svg_trace, png_trace. change (format (compiling g)) with (format g).
    change (backend (compiling g)) with (backend g). rewrite Hb. reflexivity. }
  rewrite Hfull. eapply compile_task_trace; [exact E|].
  eapply emits_bind'; [apply latex_gen_svg_emits|intros; apply emits_ret|].
  rewrite app_nil_r. reflexivity.
Qed.


Definition keeps_cwd {A} (m : M A) : Prop := forall w, cwd (snd (m w)) = cwd w.

(** [m] fails only after leaving the working directory as it found it,
    or with [GetSetCurrentDir]. *)
Definition err_keeps_cwd {A} (m : M A) : Prop :=
  forall w e w', m w = (Err e, w') -> e <> GetSetCurrentDir -> cwd w' = cwd w.

Lemma keeps_or_err {A} (op : io A) (e : GuiError) :
  (forall w, cwd (snd (op w)) = cwd w) -> keeps_cwd (or_err op e).
Proof. intros H w. unfold or_err. specialize (H w). destruct (op w) as [[a|] w']; exact H. Qed.

Lemma keeps_bind {A B} (m : M A) (k : A -> M B) :
  keeps_cwd m -> (forall a, keeps_cwd (k a)) -> keeps_cwd (m ≫= k).
Proof.
  intros Hm Hk w. rewrite bind_unfold. specialize (Hm w).
  destruct (m w) as [[a|e|s] w1]; simpl in *; [rewrite Hk|..]; congruence.
Qed.

Lemma keeps_write p c : keeps_cwd (or_err (write p c) (WriteFile p)).
Proof. apply keeps_or_err. intros w. unfold write. destruct (_ && _); reflexivity. Qed.

Lemma keeps_run_cmd p args : keeps_cwd (run_cmd tool p args).
Proof.
  intros w. unfold run_cmd. destruct (tool p args (cwd w) (fs w)) as [o f'].
  destruct (run_command p o); reflexivity.
Qed.

Lemma keeps_set_color_in dir color : keeps_cwd (set_color_in dir color).
Proof.
  unfold set_color_in. apply keeps_bind.
  - apply keeps_or_err. intros w. unfold read_to_string.
    destruct (_ !! _); [destruct (Utf8.valid _)|]; reflexivity.
  - intros svg. apply keeps_or_err. intros w. unfold write. destruct (_ && _); reflexivity.
Qed.

Lemma keeps_err {A} (m : M A) : keeps_cwd m -> err_keeps_cwd m.
Proof. intros H w e w' Hm _. specialize (H w). rewrite Hm in H. exact H. Qed.

Lemma err_keeps_bind {A B} (m : M A) (k : A -> M B) :
  keeps_cwd m -> (forall a, err_keeps_cwd (k a)) -> err_keeps_cwd (m ≫= k).
Proof.
  intros Hm Hk w e w' H He. rewrite bind_unfold in H. specialize (Hm w).
  destruct (m w) as [[a|e'|s] w1]; simpl in Hm.
  - rewrite <- Hm. exact (Hk a w1 e w' H He).
  - injection H as -> <-. exact Hm.
  - discriminate.
Qed.

Lemma err_keeps_restore {A} (p : string) (a : A) :
  err_keeps_cwd (or_err (set_current_dir p) GetSetCurrentDir;; mret a).
Proof.
  intros w e w' H He. rewrite bind_unfold in H. unfold or_err at 1, set_current_dir in H.
  case_bool_decide; [discriminate H|injection H as <- _; contradiction].
Qed.

Lemma enter_dir_err {B} (dir : string) (pre : M unit) (E0 : GuiError) (rest : string -> M B)
    (w w' : World) (e : GuiError) :
  keeps_cwd pre ->
  (forall w e w', pre w = (Err e, w') -> e = E0) -> e <> E0 ->
  (forall init, err_keeps_cwd (rest init)) ->
  (init ← or_err current_dir GetSetCurrentDir;
   pre;; or_err (set_current_dir dir) GetSetCurrentDir;; rest init) w = (Err e, w') ->
  e <> GetSetCurrentDir -> cwd w' = resolve w dir.
Proof.
  intros Hpk Hpe HE0 Hr H He. rewrite bind_unfold in H.
  unfold or_err at 1, current_dir in H. case_bool_decide; cbn iota beta in H;
    [|injection H as <- _; contradiction].
  rewrite bind_unfold in H. specialize (Hpk w). specialize (Hpe w).
  destruct (pre w) as [[u|e'|s] w1] eqn:Ep; simpl in Hpk; [|injection H as -> _; exfalso; exact (HE0 (Hpe e w1 eq_refl))|discriminate].
  rewrite bind_unfold in H. unfold or_err at 1, set_current_dir in H.
  case_bool_decide; cbn iota beta in H; [|injection H as <- _; contradiction].
  pose proof (Hr (cwd w) _ _ _ H He) as Hc. rewrite Hc. cbn [cwd]. unfold resolve. rewrite Hpk. reflexivity.
Qed.

(** typst.rs, [gen_image], and latex.rs, [gen_png] and [gen_svg]: when
    a render fails after having entered its directory (any error but a
    failing [current_dir]/[set_current_dir], and for [gen_svg] a failing
    [create_dir]), the [?] returns early and the process stays in the
    render directory: the initial directory is not restored. *)
Theorem failed_render_stays_in_dir (w w' : World) (e : GuiError) :
  e <> GetSetCurrentDir ->
  (forall eq dir color image,
     typst_gen_image tool eq dir color image w = (Err e, w') -> cwd w' = resolve w dir) /\
  (forall dir color density,
     latex_gen_png tool dir color density w = (Err e, w') -> cwd w' = resolve w dir) /\
  (forall latex hash color,
     e <> TempDir ->
     latex_gen_svg tool root latex hash color w = (Err e, w') -> cwd w' = resolve w (get_dir root hash)).
Proof.
  intros He. split; [|split].
  - intros eq dir color image H. unfold typst_gen_image in H.
    eapply (enter_dir_err dir (mret ()) GetSetCurrentDir);
      [intros w0; reflexivity|discriminate|exact He| |exact H|exact He].
    intros init. apply err_keeps_bind; [apply keeps_write|intros ?].
    apply err_keeps_bind; [apply keeps_run_cmd|intros ?]. apply err_keeps_restore.
  - intros dir color density H. unfold latex_gen_png in H.
    eapply (enter_dir_err dir (mret ()) GetSetCurrentDir);
      [intros w0; reflexivity|discriminate|exact He| |exact H|exact He].
    intros init. apply err_keeps_bind; [apply keeps_run_cmd|intros ?]. apply err_keeps_restore.
  - intros latex hash color Ht H. unfold latex_gen_svg in H.
    eapply (enter_dir_err (get_dir root hash) (or_err (create_dir (get_dir root hash)) TempDir) TempDir);
      [| |exact Ht| |exact H|exact He].
    + apply keeps_or_err. intros w0. unfold create_dir. destruct (_ || _); reflexivity.
    + intros w0 e0 w0' H0. unfold or_err in H0.
      destruct (create_dir _ w0) as [[[]|] w1]; [discriminate H0|injection H0 as <- _; reflexivity].
    + intros init. apply err_keeps_bind; [apply keeps_write|intros ?].
      apply err_keeps_bind; [apply keeps_run_cmd|intros ?].
      apply err_keeps_bind; [apply keeps_run_cmd|intros ?].
      apply err_keeps_bind; [apply keeps_set_color_in|intros ?]. apply err_keeps_restore.
Qed.

End Flow.

Lemma string_app_inv_l (p s1 s2 : string) : p ++ s1 = p ++ s2 -> s1 = s2.
Proof. induction p as [|c p IH]; simpl; [auto|intros H; injection H; auto]. Qed.

(** latex.rs, [get_dir]: different hashes get different cache
    directories. *)
Theorem get_dir_injective (root : string) (h1 h2 : N) :
  get_dir root h1 = get_dir root h2 -> h1 = h2.
Proof.
  unfold get_dir, Path.join. cbn [Path.is_absolute String.append Ascii.eqb].
  destruct root as [|c r]; [|destruct (Path.ends_with_sep _)]; intros H;
    repeat apply string_app_inv_l in H; apply (inj pretty) in H; exact H.
Qed.

Section Watch.
Variable tool : string -> list string -> string -> FS -> option Output * FS.


End Watch.

Fixpoint dval (acc : N) (s : string) : option N :=
  match s with
  | EmptyString => Some acc
  | String c r => match to_digit c with
                  | None => None
                  | Some d => dval (acc * 10 + d) r
                  end
  end.

Lemma dval_ge (s : string) : forall acc v, dval acc s = Some v -> (acc <= v)%N.
Proof.
  induction s as [|c r IH]; simpl; intros acc v H.
  - injection H as ->. lia.
  - destruct (to_digit c) as [d|]; [|discriminate]. apply IH in H. lia.
Qed.

Lemma parse_digits_dval (s : string) : forall acc, (acc <= USIZE_MAX)%N ->
  parse_digits acc s = match dval acc s with
                       | Some v => if (v <=? USIZE_MAX)%N then Some v else None
                       | None => None
                       end.
Proof.
  induction s as [|c r IH]; simpl; intros acc Ha.
  - apply N.leb_le in Ha. rewrite Ha. reflexivity.
  - destruct (to_digit c) as [d|]; [|reflexivity].
    destruct (N.leb_spec (acc * 10) USIZE_MAX); destruct (N.leb_spec (acc * 10 + d) USIZE_MAX);
      try (apply IH; lia);
      (destruct (dval (acc * 10 + d) r) as [v|] eqn:E; [|reflexivity];
       apply dval_ge in E; destruct (N.leb_spec v USIZE_MAX); [lia|reflexivity]).
Qed.

Lemma to_digit_char (d : N) : (d < 10)%N -> to_digit (pretty_N_char d) = Some d.
Proof.
  intros Hd.
  assert (d = 0 \/ d = 1 \/ d = 2 \/ d = 3 \/ d = 4 \/ d = 5 \/ d = 6 \/ d = 7 \/ d = 8 \/ d = 9)%N
    as H by lia.
  repeat destruct H as [->|H]; [reflexivity..|]. subst. reflexivity.
Qed.

Lemma dval_pretty_go (x : N) : forall s, dval 0 (pretty_N_go x s) = dval x s.
Proof.
  induction (N.lt_wf_0 x) as [x _ IH]; intros s.
  destruct (N.eq_dec x 0%N) as [->|Hx]; [rewrite pretty_N_go_0; reflexivity|].
  rewrite pretty_N_go_step by lia. rewrite IH by (apply N.div_lt; lia).
  simpl. rewrite to_digit_char by (apply N.mod_lt; lia).
  rewrite (N.div_mod x 10) at 3 by lia. f_equal. lia.
Qed.

Definition digit_head (s : string) : Prop :=
  match s with EmptyString => True | String c _ => is_Some (to_digit c) end.

Lemma pretty_go_head (x : N) : forall s, digit_head s -> digit_head (pretty_N_go x s) /\ (s <> "" -> pretty_N_go x s <> "").
Proof.
  induction (N.lt_wf_0 x) as [x _ IH]; intros s Hs.
  destruct (N.eq_dec x 0%N) as [->|Hx]; [rewrite pretty_N_go_0; auto|].
  rewrite pretty_N_go_step by lia.
  destruct (IH (x `div` 10)%N ltac:(apply N.div_lt; lia) (String (pretty_N_char (x `mod` 10)) s))
    as [H1 H2].
  - simpl. rewrite to_digit_char by (apply N.mod_lt; lia). eexists; reflexivity.
  - split; [exact H1|]. intros _. apply H2. discriminate.
Qed.

Lemma pretty_N_shape (n : N) :
  pretty n = "0" \/ (exists c r, pretty n = String c r /\ is_Some (to_digit c) /\ (0 < n)%N /\
                                 pretty n = pretty_N_go n "").
Proof.
  unfold pretty, pretty_N. case_decide as Hn; [left; reflexivity|right].
  rewrite pretty_N_go_step by lia.
  destruct (pretty_go_head (n `div` 10)%N (String (pretty_N_char (n `mod` 10)) ""))
    as [H1 H2].
  - simpl. rewrite to_digit_char by (apply N.mod_lt; lia). eexists; reflexivity.
  - destruct (pretty_N_go _ _) as [|c r] eqn:E; [exfalso; exact (H2 ltac:(discriminate) eq_refl)|].
    exists c, r. split; [reflexivity|]. split; [exact H1|]. split; [lia|].
    rewrite <- E. rewrite <- pretty_N_go_step by lia. reflexivity.
Qed.

Lemma parse_usize_pretty_value (n : N) :
  parse_usize (pretty n) = if (n <=? USIZE_MAX)%N then Some n else None.
Proof.
  destruct (pretty_N_shape n) as [H0|(c & r & Hs & Hd & Hn & Hg)].
  - rewrite H0. unfold pretty, pretty_N in H0. case_decide as Hn; [subst; reflexivity|].
    exfalso. exact (pretty_N_go_ne_0 n "" ltac:(discriminate) H0).
  - assert (Hp : parse_usize (String c r) = parse_digits 0 (String c r)).
    { unfold parse_usize.
      destruct (Ascii.eqb_spec c "+"%char) as [->|_]; [destruct Hd as [? Hd]; discriminate Hd|].
      destruct (Ascii.eqb_spec c "-"%char) as [->|_]; [destruct Hd as [? Hd]; discriminate Hd|].
      reflexivity. }
    rewrite Hs, Hp, <- Hs, Hg, parse_digits_dval by (vm_compute; discriminate).
    rewrite dval_pretty_go. reflexivity.
Qed.

(** [str::parse::<usize>] reads back what [to_string] prints: the
    decimal text of [n] parses to [n] when [n] fits in a [usize], and is
    an overflow error otherwise. *)
Theorem parse_usize_pretty (n : N) :
  parse_usize (pretty n) = if (n <=? USIZE_MAX)%N then Some n else None.
Proof. apply parse_usize_pretty_value. Qed.

Section Fields.
Variable tool : string -> list string -> string -> FS -> option Output * FS.
Variable root : string.

Lemma show_result_same (g g' : Gui) (c : Cmd) (w w' : World) :
  show_result root g w = (Some (g', c), w') -> g' = g.
Proof.
  unfold show_result. destruct (copy_to_dest root g w) as [[u|] w1]; intros H; [|discriminate].
  injection H as <- _ _. reflexivity.
Qed.

Lemma update_generated_fields (msg : Message.t) (g g' : Gui) (c : Cmd) (w w' : World) :
  msg <> Message.Compile ->
  update tool root msg g w = (Some (g', c), w') -> g' = set_state g (state g').
Proof.
  destruct msg as [|r|r]; [intros H; contradiction H; reflexivity| |]; intros _; cbn [update].
  - destruct r as [u|e|s]; cbn [update_svg_generated].
    + destruct (format g).
      * intros H. apply show_result_same in H. subst g'. reflexivity.
      * intros H. injection H as <- _ _. destruct g; reflexivity.
    + intros H. injection H as <- _ _. reflexivity.
    + discriminate.
  - destruct r as [u|e|s]; cbn [update_png_generated].
    + intros H. apply show_result_same in H. subst g'. reflexivity.
    + intros H. injection H as <- _ _. reflexivity.
    + discriminate.
Qed.

Lemma update_generated_next (msg : Message.t) (g g' : Gui) t f (w w' : World) :
  msg <> Message.Compile ->
  update tool root msg g w = (Some (g', Perform t f), w') ->
  forall r, f r <> Message.Compile.
Proof.
  destruct msg as [|r|r]; [intros H; contradiction H; reflexivity| |]; intros _; cbn [update].
  - intros H r'. apply update_svg_generated_perform in H as (-> & _). discriminate.
  - intros H. apply (update_png_generated_none tool) in H. discriminate.
Qed.

Lemma run_generated_fields (n : nat) : forall msg g g' w w',
  msg <> Message.Compile ->
  run tool root n msg g w = Finished g' w' -> g' = set_state g (state g').
Proof.
  induction n as [|n IH]; intros msg g g' w w' Hm; rewrite run_unfold;
    destruct (update tool root msg g w) as [[[g1 [|t f]]|] w1] eqn:E; try discriminate.
  - intros H. injection H as <- _. exact (update_generated_fields msg g g1 _ w w1 Hm E).
  - intros H. injection H as <- _. exact (update_generated_fields msg g g1 _ w w1 Hm E).
  - pose proof (update_generated_fields msg g g1 _ w w1 Hm E) as Hg1.
    pose proof (update_generated_next msg g g1 t f w w1 Hm E) as Hf.
    destruct (t w1) as [[?|?|?] w2]; try discriminate; intros H;
      apply IH in H; try apply Hf; rewrite H, Hg1; reflexivity.
Qed.

Ltac task_then_generated :=
  lazymatch goal with
  | |- (let (_, _) := ?m in _) = _ -> _ => destruct m as [[?|?|?] ?]
  end; try discriminate; intros H;
  apply run_generated_fields in H; try discriminate; rewrite H; reflexivity.

Lemma compile_fields (g g' : Gui) (w w' : World) :
  compile tool root g w = Finished g' w' ->
  g' = set_compiled_color (set_state g (state g'))
         (if String.eqb (equation g) "" then compiled_color g else gui_color g).
Proof.
  unfold compile. rewrite run_unfold. cbn [update]. unfold update_compile at 1.
  destruct (String.eqb (equation g) "").
  { intros H. injection H as <- _. destruct g; reflexivity. }
  cbv zeta.
  assert (Hc : forall st, set_compiled_color (set_state
                 (set_compiled_color (set_state g State.Compiling) (gui_color g)) st) (gui_color g)
               = set_compiled_color (set_state g st) (gui_color g)) by reflexivity.
  destruct (backend _).
  - destruct (path_exists _ _).
    + destruct (_ && _).
      * destruct (update_svg_generated _ _ _ _ _) as [[[g1 [|t f]]|] w1] eqn:E; try discriminate.
        -- intros H. injection H as <- _.
           apply (update_generated_fields (Message.SvgGenerated (Ok ()))) in E; [|discriminate].
           rewrite E at 1. reflexivity.
        -- apply update_svg_generated_perform in E as (-> & -> & _).
           destruct (t w1) as [[?|?|?] w2]; try discriminate; intros H;
             apply run_generated_fields in H; try discriminate; rewrite H; reflexivity.
      * task_then_generated.
    + task_then_generated.
  - task_then_generated.
Qed.

(** gui.rs, [update]: a compile that finishes changes only the state
    and the compiled color of the GUI, the latter to the current color
    (the [Color] field, or white) unless the equation is empty. *)
Theorem compile_changes_state_and_color (g g' : Gui) (w w' : World) :
  compile tool root g w = Finished g' w' ->
  g' = set_compiled_color (set_state g (state g'))
         (if String.eqb (equation g) "" then compiled_color g else gui_color g).
Proof. apply compile_fields. Qed.

End Fields.

Section UiProps.
Variable tool : string -> list string -> string -> FS -> option Output * FS.
Variable root : string.

(** gui.rs, [update]: after [Color(c)], a compile of a non-empty
    equation that finishes renders with the color [c], or with white when
    [c] is empty. *)
Theorem color_then_compile (a a1 : App) (c : string) (cmd : UiCmd) (g' : Gui) (w w1 w' : World) :
  update_ui tool root (UiMessage.Color c) a w = (Some (a1, cmd), w1) ->
  equation (gui a) <> "" ->
  compile tool root (gui a1) w1 = Finished g' w' ->
  compiled_color g' = (if String.eqb c "" then DEFAULT_COLOR else c).
Proof.
  cbn [update_ui]. intros H Heq Hc. injection H as <- _ _.
  apply compile_fields in Hc. rewrite Hc. cbn [gui set_compiled_color compiled_color].
  replace (String.eqb (equation (set_color_field (gui a) (filter_not_empty c))) "") with false
    by (symmetry; apply String.eqb_neq; exact Heq).
  unfold gui_color, filter_not_empty. cbn [color set_color_field].
  destruct (String.eqb c ""); reflexivity.
Qed.

(** gui.rs, [update] on [SetDpi] and [view]: entering the dpi text the
    view shows leaves the dpi unchanged, so the message acts as a plain
    [Compile]. *)
Theorem set_dpi_own_text (a : App) (w : World) :
  (N.of_nat (dpi (gui a)) <= USIZE_MAX)%N ->
  update_ui tool root (UiMessage.SetDpi (dpi_text (gui a))) a w
  = update_ui tool root UiMessage.Compile a w.
Proof.
  intros Hle. cbn [update_ui]. unfold dpi_text.
  change (pretty (dpi (gui a))) with (pretty (N.of_nat (dpi (gui a)))).
  rewrite parse_usize_pretty_value. apply N.leb_le in Hle. rewrite Hle, Nnat.Nat2N.id.
  destruct (pretty_N_shape (N.of_nat (dpi (gui a)))) as [H|(c & r & H & _)]; rewrite H;
    cbn [String.eqb]; destruct (gui a); reflexivity.
Qed.

(** gui.rs, [Gui::new]: it panics exactly when the working directory
    is gone, before any temporary directory is created, or when
    [TempDir::new] fails. Otherwise the output directory is the working
    directory, the Typst directory is the one just created, and a
    [Compile] right away changes nothing, as the empty equation keeps the
    initial [NoEquation] state. *)
Theorem gui_new_outcome (temp_dir_new : io string) (w : World) :
  match gui_new temp_dir_new w with
  | (Some a, w2) =>
      cwd w ∈ dirs (fs w) /\ temp_dir_new w = (Some (typst_dir (gui a)), w2) /\
      out_dir (gui a) = cwd w /\
      update_ui tool root UiMessage.Compile a w2 = (Some (a, UiNone), w2)
  | (None, w2) =>
      ((cwd w ∉ dirs (fs w)) /\ w2 = w) \/
      (cwd w ∈ dirs (fs w) /\ temp_dir_new w = (None, w2))
  end.
Proof.
  unfold gui_new, current_dir. case_bool_decide as H; cbn iota; [|left; auto].
  destruct (temp_dir_new w) as [[t|] w2]; cbn iota.
  - split; [exact H|]. split; [reflexivity|]. split; [reflexivity|]. reflexivity.
  - right. auto.
Qed.

End UiProps.


(* ------------------------------------------------------------------ *)
(** ** Concrete runs of the properties above *)

Definition sample_app : App := mkApp (sample_gui "x" ImageFormat.Svg Backend.LaTeX) Icon.Folder.

Definition color_gui : Gui := set_color_field (sample_gui "x" ImageFormat.Svg Backend.LaTeX) None.

Definition color_run : Outcome := compile tool_ok "/c" color_gui cached_world.

Definition color_run_gui : Gui :=
  match color_run with Finished g _ => g | _ => color_gui end.

Definition color_run_world : World :=
  match color_run with Finished _ w => w | _ => cached_world end.

(** A world in which [eq.typ] cannot be written: it is a directory. *)
Definition blocked_world : World :=
  mkWorld (mkFS (list_to_set ["/"; "/t"; "/t/eq.typ"]) ∅) "/" [].

Lemma compile_finished_shown_witness :
  color_run = Finished color_run_gui color_run_world /\
  result_shown "/c" color_run_gui color_run_world.
Proof.
  assert (E : color_run = Finished color_run_gui color_run_world) by (vm_compute; reflexivity).
  split; [exact E|].
  exact (compile_finished_shown tool_ok "/c" color_gui color_run_gui cached_world color_run_world E).
Defined.

Lemma typst_compile_trace_witness :
  backend (sample_gui "x" ImageFormat.Png Backend.Typst) = Backend.Typst /\
  equation (sample_gui "x" ImageFormat.Png Backend.Typst) <> "" /\
  exists t, option_map trace (outcome_world
              (compile tool_ok "/c" (sample_gui "x" ImageFormat.Png Backend.Typst) typst_world))
            = Some (trace typst_world ++ t)%list.
Proof.
  split; [reflexivity|]. split; [discriminate|].
  destruct (typst_compile_trace tool_ok "/c" (sample_gui "x" ImageFormat.Png Backend.Typst)
              typst_world eq_refl ltac:(discriminate)) as (t & Ht & _).
  exists t. exact Ht.
Defined.

Lemma latex_fresh_compile_trace_witness :
  backend (sample_gui "y" ImageFormat.Png Backend.LaTeX) = Backend.LaTeX /\
  equation (sample_gui "y" ImageFormat.Png Backend.LaTeX) <> "" /\
  path_exists (fs cached_world)
    (resolve cached_world (get_dir "/c" (equation_hash (sample_gui "y" ImageFormat.Png Backend.LaTeX))))
  = false /\
  exists t, option_map trace (outcome_world
              (compile tool_ok "/c" (sample_gui "y" ImageFormat.Png Backend.LaTeX) cached_world))
            = Some (trace cached_world ++ t)%list.
Proof.
  assert (Hex : path_exists (fs cached_world)
    (resolve cached_world (get_dir "/c" (equation_hash (sample_gui "y" ImageFormat.Png Backend.LaTeX))))
    = false) by (vm_compute; reflexivity).
  split; [reflexivity|]. split; [discriminate|]. split; [exact Hex|].
  destruct (latex_fresh_compile_trace tool_ok "/c" (sample_gui "y" ImageFormat.Png Backend.LaTeX)
              cached_world eq_refl ltac:(discriminate) Hex) as (t & Ht & _).
  exists t. exact Ht.
Defined.

Lemma failed_render_stays_in_dir_witness :
  WriteFile "eq.typ" <> GetSetCurrentDir /\
  fst (typst_gen_image tool_ok "x" "/t" "red" Image.Svg blocked_world) = Err (WriteFile "eq.typ") /\
  cwd (snd (typst_gen_image tool_ok "x" "/t" "red" Image.Svg blocked_world))
  = resolve blocked_world "/t".
Proof.
  split; [discriminate|]. split; [vm_compute; reflexivity|].
  apply (proj1 (failed_render_stays_in_dir tool_ok "/c" blocked_world
                  (snd (typst_gen_image tool_ok "x" "/t" "red" Image.Svg blocked_world))
                  (WriteFile "eq.typ") ltac:(discriminate)) "x" "/t" "red" Image.Svg).
  vm_compute. reflexivity.
Defined.

Lemma get_dir_injective_witness :
  get_dir "/c" 17 = get_dir "/c" 17 /\ 17%N = 17%N.
Proof. split; [reflexivity|]. apply (get_dir_injective "/c" 17 17). reflexivity. Defined.

Lemma compile_changes_state_and_color_witness :
  color_run = Finished color_run_gui color_run_world /\ compiled_color color_run_gui = "white".
Proof.
  assert (E : color_run = Finished color_run_gui color_run_world) by (vm_compute; reflexivity).
  split; [exact E|].
  rewrite (compile_changes_state_and_color tool_ok "/c" color_gui color_run_gui cached_world
             color_run_world E).
  reflexivity.
Defined.

Lemma color_then_compile_witness :
  update_ui tool_ok "/c" (UiMessage.Color "") sample_app cached_world
  = (Some (mkApp color_gui Icon.Folder, UiNone), cached_world) /\
  color_run = Finished color_run_gui color_run_world /\
  compiled_color color_run_gui = DEFAULT_COLOR.
Proof.
  assert (Hu : update_ui tool_ok "/c" (UiMessage.Color "") sample_app cached_world
               = (Some (mkApp color_gui Icon.Folder, UiNone), cached_world)) by reflexivity.
  assert (E : color_run = Finished color_run_gui color_run_world) by (vm_compute; reflexivity).
  split; [exact Hu|]. split; [exact E|].
  exact (color_then_compile tool_ok "/c" sample_app (mkApp color_gui Icon.Folder) "" UiNone
           color_run_gui cached_world cached_world color_run_world Hu ltac:(discriminate) E).
Defined.

Lemma set_dpi_own_text_witness :
  (N.of_nat (dpi (gui sample_app)) <= USIZE_MAX)%N /\
  update_ui tool_ok "/c" (UiMessage.SetDpi (dpi_text (gui sample_app))) sample_app cached_world
  = update_ui tool_ok "/c" UiMessage.Compile sample_app cached_world.
Proof.
  split; [vm_compute; discriminate|].
  apply (set_dpi_own_text tool_ok "/c" sample_app cached_world). vm_compute. discriminate.
Defined.
